(** * AskHire: the suggestion generator and the chat orchestrator of [main.py]

    A shallow embedding of the pure suggestion helpers ([_extract_keywords],
    [generate_suggestions]) and of the tool-call loop of [Me.chat], with the
    properties the specification states about them.

    Conventions of the embedding.
    - A Python [str] is a [string]; its characters are the code points
      U+0000 to U+00FF (one [ascii] each).
    - A Python [int] is a [Z].
    - An argument that may be [None] is an [option].
    - The [set] of stop words is a [gset string]; the [dict] of word counts,
      whose items are read in insertion order, is an association list; the
      [dict] of tools is a [gmap string].
    - The hosted model, the push endpoint and the standard output are the
      operations of a class [Remote] over a state of the outside world; a
      scripted model is one instance of it.
    - A turn of [chat] is a computation over that state and a log of what
      the turn did, which ends with a value or with an exception.  The
      [while] loop of [chat] has no bound in the program; here it is given a
      number of turns, and a loop that needs more ends as [Diverge]. *)

From Stdlib Require Import String Ascii List ZArith Lia Bool.
From Stdlib Require Import Sorting.Mergesort Sorting.Sorted Sorting.Permutation.
From Stdlib Require Import Structures.Orders Structures.OrderedTypeEx.
From stdpp Require Import base strings gmap.
Import ListNotations.

Local Open Scope string_scope.
Local Open Scope list_scope.
Local Open Scope Z_scope.

(** ** Characters and the regular expression of the tokenizer *)

Definition code (c : ascii) : N := N_of_ascii c.

Definition in_range (lo hi : N) (c : ascii) : bool :=
  ((lo <=? code c) && (code c <=? hi))%N.

(** The character class [[a-zA-Z]]. *)
Definition is_letter (c : ascii) : bool :=
  in_range 65 90 c || in_range 97 122 c.

(** The class [\w] of a [str] pattern: alphanumeric characters in the Unicode
    sense and the underscore.  Below U+0100 these are the ASCII letters and
    digits, the letters of Latin-1 (U+00AA, U+00B5, U+00BA, U+00C0 to U+00FF
    without the two operators U+00D7 and U+00F7) and its numeric characters
    (superscripts U+00B2, U+00B3, U+00B9 and fractions U+00BC to U+00BE). *)
Definition is_word (c : ascii) : bool :=
  in_range 48 57 c || is_letter c || in_range 95 95 c
  || in_range 170 170 c || in_range 178 179 c || in_range 181 181 c
  || in_range 185 186 c || in_range 188 190 c
  || in_range 192 214 c || in_range 216 246 c || in_range 248 255 c.

(** [\b] at a position: the characters on the two sides differ in being word
    characters; beyond either end of the text counts as a non-word character.
    [prev_word] tells whether the character before the position is a word
    character, [s] is the text from the position on. *)
Definition at_boundary (prev_word : bool) (s : string) : bool :=
  match s with
  | EmptyString => prev_word
  | String c _ => negb (Bool.eqb prev_word (is_word c))
  end.

(** The end of [[a-zA-Z]{4,}\b]: at least four letters were consumed and
    the position is a word boundary; the rest of the match is empty. *)
Definition stop_here (count : nat) (prev_word : bool) (s : string) : option string :=
  if (4 <=? count)%nat && at_boundary prev_word s then Some EmptyString else None.

(** [[a-zA-Z]{4,}\b] from a position at which [count] letters have been
    consumed already.  The quantifier is greedy: one more letter is tried
    first, and only when the rest fails does the match stop here. *)
Fixpoint letters_then_boundary (count : nat) (prev_word : bool) (s : string)
  : option string :=
  match s with
  | EmptyString => stop_here count prev_word s
  | String c s' =>
      if is_letter c then
        match letters_then_boundary (S count) (is_word c) s' with
        | Some m => Some (String c m)
        | None => stop_here count prev_word s
        end
      else stop_here count prev_word s
  end.

(** [\b[a-zA-Z]{4,}\b] anchored at a position. *)
Definition match_here (prev_word : bool) (s : string) : option string :=
  if at_boundary prev_word s then letters_then_boundary 0 prev_word s else None.

(** The scan of [re.findall]: matches are searched from left to right and do
    not overlap; [skip] counts the characters of the last match that are
    still to be passed. *)
Fixpoint findall_from (skip : nat) (prev_word : bool) (s : string) : list string :=
  match s with
  | EmptyString => []
  | String c s' =>
      match skip with
      | S k => findall_from k (is_word c) s'
      | O =>
          match match_here prev_word s with
          | Some m => m :: findall_from (String.length m - 1) (is_word c) s'
          | None => findall_from 0 (is_word c) s'
          end
      end
  end.

(** [re.findall(r"\b[a-zA-Z]{4,}\b", text)]. *)
Definition findall (text : string) : list string := findall_from 0 false text.

(** [str.lower] on one character: A to Z and the capital letters of Latin-1
    move up by 32. *)
Definition lower_char (c : ascii) : ascii :=
  if in_range 65 90 c || in_range 192 214 c || in_range 216 222 c
  then ascii_of_N (code c + 32) else c.

Fixpoint lower (s : string) : string :=
  match s with
  | EmptyString => EmptyString
  | String c s' => String (lower_char c) (lower s')
  end.

(** ** Suggestion generator helpers *)

Definition _STOPWORDS : gset string :=
  list_to_set
    ["the"; "and"; "for"; "with"; "that"; "this"; "from"; "about"; "have";
     "your"; "you"; "are"; "was"; "but"; "not"; "can"; "will"; "they"; "their"].

Definition is_stopword (w : string) : bool := bool_decide (w ∈ _STOPWORDS).

(** [freq[w] = freq.get(w, 0) + 1] on the items of the dict, which keeps the
    order in which the keys were first inserted. *)
Fixpoint freq_incr (w : string) (freq : list (string * Z)) : list (string * Z) :=
  match freq with
  | [] => [(w, 0 + 1)]
  | (k, n) :: rest =>
      if String.eqb k w then (k, n + 1) :: rest else (k, n) :: freq_incr w rest
  end.

(** One turn of [for w in words]. *)
Definition count_word (freq : list (string * Z)) (w : string) : list (string * Z) :=
  if is_stopword w then freq else freq_incr w freq.

(** The sort key [lambda x: (-x[1], x[0])] and the order of Python tuples on
    it: first component first, the second one decides ties. *)
Module ItemOrder <: TotalLeBool.

Definition t : Type := (string * Z)%type.

Definition key (x : t) : Z * string := (- snd x, fst x).

Definition leb (x y : t) : bool :=
  (fst (key x) <? fst (key y))
  || ((fst (key x) =? fst (key y)) && String.leb (snd (key x)) (snd (key y))).

Lemma leb_total : forall x y, leb x y = true \/ leb y x = true.
Proof.
  intros [w1 n1] [w2 n2]; unfold leb, key; cbn [fst snd].
  destruct (Z.compare_spec (- n1) (- n2)) as [Heq | Hlt | Hgt].
  - rewrite Heq, !Z.eqb_refl, Z.ltb_irrefl; cbn.
    apply String.leb_total.
  - left. apply Z.ltb_lt in Hlt. now rewrite Hlt.
  - right. apply Z.ltb_lt in Hgt. now rewrite Hgt.
Qed.

End ItemOrder.

Module ItemSort := Sort ItemOrder.

(** [sorted(freq.items(), key=...)]. *)
Definition sorted_items (freq : list (string * Z)) : list (string * Z) :=
  ItemSort.sort freq.

(** [l[:n]] for any integer [n]: a negative bound counts from the end. *)
Definition slice_to {A : Type} (l : list A) (n : Z) : list A :=
  if n <? 0
  then firstn (Z.to_nat (Z.max 0 (Z.of_nat (length l) + n))) l
  else firstn (Z.to_nat n) l.

(** The list [words] of [_extract_keywords]. *)
Definition words_of (text : string) : list string := map lower (findall text).

(** The list [items] of [_extract_keywords], for a non-empty text. *)
Definition ranked_items (text : string) : list (string * Z) :=
  sorted_items (fold_left count_word (words_of text) []).

Definition _extract_keywords (text : option string) (top_n : Z) : list string :=
  match text with
  | None | Some EmptyString => []
  | Some text => map fst (slice_to (ranked_items text) top_n)
  end.

Definition template (k : string) : string :=
  "Can you tell me more about " +:+ k +:+ "?".

(** [for k in kws: suggestions.append(...); if len(suggestions) >= max: break]. *)
Fixpoint add_keyword_prompts (kws : list string) (suggestions : list string)
  (max_suggestions : Z) : list string :=
  match kws with
  | [] => suggestions
  | k :: rest =>
      let suggestions := suggestions ++ [template k] in
      if Z.of_nat (length suggestions) >=? max_suggestions then suggestions
      else add_keyword_prompts rest suggestions max_suggestions
  end.

Definition generic : list string :=
  ["How did you achieve that?";
   "What tools or technologies were used?";
   "Can you share a brief example or outcome?"].

(** [while len(suggestions) < max and i < len(generic)]; [remaining] is
    [generic[i:]]. *)
Fixpoint add_generic_prompts (remaining : list string) (suggestions : list string)
  (max_suggestions : Z) : list string :=
  match remaining with
  | [] => suggestions
  | g :: rest =>
      if Z.of_nat (length suggestions) <? max_suggestions
      then add_generic_prompts rest (suggestions ++ [g]) max_suggestions
      else suggestions
  end.

(** The two texts [generate_suggestions] can hand to [_extract_keywords]. *)
Inductive source : Type := UserMessage | ResponseText.

(** [generate_suggestions], together with the list of the texts that were
    handed to [_extract_keywords], in call order. *)
Definition generate_suggestions_calls (user_message response_text owner : option string)
  (max_suggestions : Z) : list source * list string :=
  let kws := _extract_keywords user_message max_suggestions in
  let '(calls, kws) :=
    match kws with
    | [] => ([UserMessage; ResponseText],
             _extract_keywords response_text max_suggestions)
    | _ :: _ => ([UserMessage], kws)
    end in
  let suggestions := add_keyword_prompts kws [] max_suggestions in
  (calls, add_generic_prompts generic suggestions max_suggestions).

Definition generate_suggestions (user_message response_text owner : option string)
  (max_suggestions : Z) : list string :=
  snd (generate_suggestions_calls user_message response_text owner max_suggestions).

(** ** Notions used to state the properties *)

Definition chars (s : string) : list ascii := list_ascii_of_string s.

(** [t] occurs in [text] as a run of consecutive characters. *)
Definition occurs_in (t text : string) : Prop :=
  exists pre post, text = pre +:+ t +:+ post.

(** [freq.get(w, 0)]. *)
Fixpoint freq_get (freq : list (string * Z)) (w : string) : Z :=
  match freq with
  | [] => 0
  | (k, n) :: rest => if String.eqb k w then n else freq_get rest w
  end.

(** How often [w] occurs in a list of words. *)
Definition occurrences (words : list string) (w : string) : Z :=
  Z.of_nat (count_occ string_dec words w).

(** The keywords of a text before the cut at [top_n], best first. *)
Definition candidates (text : option string) : list string :=
  match text with
  | None | Some EmptyString => []
  | Some text => map fst (ranked_items text)
  end.


(** The candidates of the text the keywords are taken from: those of the
    user message when it has any, those of the response text otherwise. *)
Definition used_candidates (user_message response_text : option string) : list string :=
  match candidates user_message with
  | [] => candidates response_text
  | _ :: _ => candidates user_message
  end.

(** ** The chat orchestrator: data *)

(** The exceptions of the model are the instances of [Exception]; their class
    is kept as far as a handler of the program distinguishes it, and
    [exn_str] is [str(e)]. *)
Inductive exception_class : Type := TypeError | RequestException | OtherException.

Record exn : Type := { exn_class : exception_class; exn_str : string }.

(** What a call into a library gives back: a value or a raised exception. *)
Inductive result (A : Type) : Type :=
| Ok (a : A)
| Err (e : exn).
Arguments Ok {A} a.
Arguments Err {A} e.

(** The value of a tool-call argument, carried as the text an f-string
    prints for it: the tools only ever format their arguments. *)
Definition value : Type := string.

Record FunctionCall : Type := { fc_name : string; fc_args : list (string * value) }.

(** A part of a response; [function_call] is [None] when [part.function_call]
    is falsy. *)
Record Part : Type := { part_text : string; function_call : option FunctionCall }.

(** A response of the model; [text] is what the accessor [response.text]
    gives, which raises when the response has no text to offer. *)
Record Response : Type := { parts : list Part; text : result string }.

(** [FunctionResponse(name=..., response={"result": ...})]. *)
Record FunctionResponse : Type := { fr_name : string; fr_result : string }.

(** What [chat_session.send_message] is called with. *)
Inductive content : Type :=
| Text (user_message : string)
| FunctionResponses (function_responses : list FunctionResponse).

Record turn : Type := { role : string; turn_parts : list string }.

Record GenerativeModel : Type := { model_name : string; system_instruction : string }.

(** The dict a tool returns. *)
Record ToolResult : Type := { status : string; message : string }.

(** What the program does that an observer of a turn can count. *)
Inductive event : Type :=
| Sent (c : content)
| Called (function_name : string) (args : list (string * value))
| StError (notice : string).

(** *** [json.dumps] of a tool result *)

Definition chr (n : N) : string := String (ascii_of_N n) EmptyString.

Definition hex_digit (n : N) : string :=
  chr (if (n <? 10)%N then 48 + n else 87 + n)%N.

(** One character inside a JSON string, with [ensure_ascii] on. *)
Definition json_escape_char (c : ascii) : string :=
  let n := code c in
  if (n =? 34)%N then chr 92 +:+ chr 34
  else if (n =? 92)%N then chr 92 +:+ chr 92
  else if (n =? 10)%N then chr 92 +:+ "n"
  else if (n =? 13)%N then chr 92 +:+ "r"
  else if (n =? 9)%N then chr 92 +:+ "t"
  else if (n =? 8)%N then chr 92 +:+ "b"
  else if (n =? 12)%N then chr 92 +:+ "f"
  else if ((n <? 32) || (126 <? n))%N
       then chr 92 +:+ "u00" +:+ hex_digit (n / 16) +:+ hex_digit (n mod 16)
  else String c EmptyString.

Fixpoint json_escape (s : string) : string :=
  match s with
  | EmptyString => EmptyString
  | String c s' => json_escape_char c +:+ json_escape s'
  end.

Definition json_string (s : string) : string := chr 34 +:+ json_escape s +:+ chr 34.

Definition json_dumps (r : ToolResult) : string :=
  "{" +:+ json_string "status" +:+ ": " +:+ json_string (status r) +:+ ", "
  +:+ json_string "message" +:+ ": " +:+ json_string (message r) +:+ "}".

(** How a computation ends: with a value, with an exception on its way up,
    or not within the loop turns it was given. *)
Inductive outcome (A : Type) : Type :=
| Return (a : A)
| Raise (e : exn)
| Diverge.
Arguments Return {A} a.
Arguments Raise {A} e.
Arguments Diverge {A}.

(** *** The collaborators *)

(** The remote services and the process environment: the hosted model, the
    push endpoint, the standard output and the two push credentials.  Each
    call acts on the state of the outside world. *)
Class Remote : Type := {
  World : Type;
  start_chat : GenerativeModel -> list turn -> World -> result unit * World;
  send_message : content -> World -> result Response * World;
  requests_post : string -> list (string * string) -> World -> result unit * World;
  print : string -> World -> World;
  PUSHOVER_TOKEN : option string;
  PUSHOVER_USER : option string
}.

(** A tool of the registry, called as [tool_function( **args )]: it returns
    its dict or raises. *)
Abbreviation tool_function :=
  (list (string * value) -> World -> result ToolResult * World) (only parsing).

Section Orchestrator.

Context `{R : Remote}.

(** *** Pushover notifications *)

Definition truthy (s : option string) : bool :=
  match s with
  | Some (String _ _) => true
  | _ => false
  end.

Definition push (message title : string) (w : World) : result unit * World :=
  if truthy PUSHOVER_TOKEN && truthy PUSHOVER_USER then
    match requests_post "https://api.pushover.net/1/messages.json"
            [("token", default "" PUSHOVER_TOKEN); ("user", default "" PUSHOVER_USER);
             ("title", title); ("message", message)] w with
    | (Ok _, w') => (Ok tt, w')
    | (Err e, w') =>
        match exn_class e with
        | RequestException =>
            (Ok tt, print ("Pushover notification failed: " +:+ exn_str e) w')
        | _ => (Err e, w')
        end
    end
  else (Ok tt, w).

(** *** Tool definitions *)

Fixpoint args_get (args : list (string * value)) (k : string) : option value :=
  match args with
  | [] => None
  | (k', v) :: rest => if String.eqb k' k then Some v else args_get rest k
  end.

(** The first keyword of a call that the function has no parameter for. *)
Definition unexpected_keyword (params : list string) (args : list (string * value))
  : option string :=
  List.find (fun k => negb (existsb (String.eqb k) params)) (map fst args).

(** The [TypeError]s of a call whose keywords do not fit the signature. *)
Definition unexpected_keyword_error (f k : string) : exn :=
  {| exn_class := TypeError;
     exn_str := f +:+ "() got an unexpected keyword argument '" +:+ k +:+ "'" |}.

Definition missing_argument_error (f k : string) : exn :=
  {| exn_class := TypeError;
     exn_str := f +:+ "() missing 1 required positional argument: '" +:+ k +:+ "'" |}.

Definition nl : string := chr 10.

Definition record_user_details : tool_function := fun args w =>
  match unexpected_keyword ["email"; "name"; "notes"] args, args_get args "email" with
  | Some k, _ => (Err (unexpected_keyword_error "record_user_details" k), w)
  | None, None => (Err (missing_argument_error "record_user_details" "email"), w)
  | None, Some email =>
      let name := default "Name not provided" (args_get args "name") in
      let notes := default "Not provided" (args_get args "notes") in
      let message :=
        "Name: " +:+ name +:+ nl +:+ "Email: " +:+ email +:+ nl +:+ "Notes: " +:+ notes in
      match push message "New Contact Recorded" w with
      | (Ok _, w') =>
          (Ok {| status := "success";
                 message := "Details for " +:+ name +:+ " recorded." |}, w')
      | (Err e, w') => (Err e, w')
      end
  end.

Definition record_unknown_question : tool_function := fun args w =>
  match unexpected_keyword ["question"] args, args_get args "question" with
  | Some k, _ => (Err (unexpected_keyword_error "record_unknown_question" k), w)
  | None, None => (Err (missing_argument_error "record_unknown_question" "question"), w)
  | None, Some question =>
      let message := "Question: " +:+ question in
      match push message "Unanswered Question Logged" w with
      | (Ok _, w') =>
          (Ok {| status := "success";
                 message := "Question has been recorded for review." |}, w')
      | (Err e, w') => (Err e, w')
      end
  end.

(** *** The chatbot object *)

Record Me : Type := {
  model : option GenerativeModel;
  tools : gmap string tool_function
}.

(** [self.tools] as [__init__] sets it. *)
Definition registered_tools : gmap string tool_function :=
  {[ "record_user_details" := record_user_details;
     "record_unknown_question" := record_unknown_question ]}.

(** *** Computations of a turn *)

Record state : Type := { world : World; log : list event }.

Definition M (A : Type) : Type := state -> outcome A * state.

Definition ret {A : Type} (a : A) : M A := fun st => (Return a, st).

Definition bind {A B : Type} (c : M A) (k : A -> M B) : M B := fun st =>
  match c st with
  | (Return a, st') => k a st'
  | (Raise e, st') => (Raise e, st')
  | (Diverge, st') => (Diverge, st')
  end.

(** [try: body / except Exception as e: handler]. *)
Definition try_except {A : Type} (body : M A) (handler : exn -> M A) : M A := fun st =>
  match body st with
  | (Raise e, st') => handler e st'
  | r => r
  end.

Definition emit (ev : event) : M unit := fun st =>
  (Return tt, {| world := world st; log := log st ++ [ev] |}).

(** A call into a collaborator. *)
Definition call {A : Type} (f : World -> result A * World) : M A := fun st =>
  let (r, w) := f (world st) in
  (match r with Ok a => Return a | Err e => Raise e end,
   {| world := w; log := log st |}).

(** An attribute access that may raise. *)
Definition access {A : Type} (r : result A) : M A := fun st =>
  (match r with Ok a => Return a | Err e => Raise e end, st).

End Orchestrator.

Declare Scope chat_scope.
Delimit Scope chat_scope with chat.
Notation "x <- c ;; k" := (bind c (fun x => k))
  (at level 100, c at next level, right associativity) : chat_scope.
Notation "c ;; k" := (bind c (fun _ => k))
  (at level 100, right associativity) : chat_scope.

Section Chat.

Context `{R : Remote}.

Local Open Scope chat_scope.

(** [chat_session.send_message(c)]. *)
Definition chat_session_send_message (c : content) : M Response :=
  emit (Sent c) ;; call (send_message c).

(** [response.parts and any(part.function_call for part in response.parts)]. *)
Definition has_function_call (response : Response) : bool :=
  existsb (fun part => bool_decide (is_Some (function_call part))) (parts response).

(** [[part.function_call for part in response.parts if part.function_call]]. *)
Definition function_calls_of (response : Response) : list FunctionCall :=
  omap function_call (parts response).

(** The dict [result] of one requested call. *)
Definition tool_call_result (self : Me) (fc : FunctionCall) : M ToolResult :=
  let function_name := fc_name fc in
  let args := fc_args fc in
  match tools self !! function_name with
  | None =>
      ret {| status := "error"; message := "Unknown function: " +:+ function_name |}
  | Some tool_function =>
      try_except
        (emit (Called function_name args) ;; call (tool_function args))
        (fun e =>
           ret {| status := "error";
                  message := "Error in " +:+ function_name +:+ ": " +:+ exn_str e |})
  end.

(** [for fc in function_calls: ...; function_responses.append(...)]. *)
Fixpoint for_function_calls (self : Me) (function_calls : list FunctionCall)
  (function_responses : list FunctionResponse) : M (list FunctionResponse) :=
  match function_calls with
  | [] => ret function_responses
  | fc :: rest =>
      result <- tool_call_result self fc ;;
      for_function_calls self rest
        (function_responses
         ++ [{| fr_name := fc_name fc; fr_result := json_dumps result |}])
  end.

(** The [while] loop of [chat]; [fuel] bounds the number of its turns, and
    the loop that would take one more is [Diverge]. *)
Fixpoint while_function_calls (fuel : nat) (self : Me) (response : Response)
  : M Response :=
  if has_function_call response then
    match fuel with
    | O => fun st => (Diverge, st)
    | S fuel' =>
        function_responses <-
          for_function_calls self (function_calls_of response) [] ;;
        response <- chat_session_send_message (FunctionResponses function_responses) ;;
        while_function_calls fuel' self response
    end
  else ret response.

(** The [try] block of [chat]. *)
Definition chat_try (fuel : nat) (self : Me) (user_message : string) : M string :=
  response <- chat_session_send_message (Text user_message) ;;
  response <- while_function_calls fuel self response ;;
  access (text response).

Definition not_configured : string :=
  "The AI model is not configured. Please check your API key.".

Definition apology : string := "Sorry, I encountered an error. Please try again.".

(** The notice [st.error] shows for an exception. *)
Definition error_notice (e : exn) : string :=
  "An error occurred while communicating with the Gemini API: " +:+ exn_str e.

Definition chat (fuel : nat) (self : Me) (user_message : string)
  (chat_history : list turn) : M string :=
  match model self with
  | None => ret not_configured
  | Some model =>
      call (start_chat model chat_history) ;;
      try_except
        (chat_try fuel self user_message)
        (fun e =>
           emit (StError (error_notice e)) ;;
           ret apology)
  end.

(** *** Notions used to state the properties *)

(** The dict that goes back for a call, from what its tool did. *)
Definition captured (function_name : string) (r : result ToolResult) : ToolResult :=
  match r with
  | Ok d => d
  | Err e =>
      {| status := "error";
         message := "Error in " +:+ function_name +:+ ": " +:+ exn_str e |}
  end.

Definition unknown_function (function_name : string) : ToolResult :=
  {| status := "error"; message := "Unknown function: " +:+ function_name |}.

(** The events of the tools a list of calls runs. *)
Definition executions (self : Me) (function_calls : list FunctionCall) : list event :=
  flat_map
    (fun fc =>
       match tools self !! fc_name fc with
       | Some _ => [Called (fc_name fc) (fc_args fc)]
       | None => []
       end)
    function_calls.

Definition answer (fc : FunctionCall) (d : ToolResult) : FunctionResponse :=
  {| fr_name := fc_name fc; fr_result := json_dumps d |}.





(** The remote interaction of a turn ends in an exception: reading the text
    of the last response raises, or a follow-up message does, now or after
    further rounds.  The number counts the follow-up messages sent, and the
    last state is the one the exception leaves. *)
Inductive turn_raises (self : Me) : nat -> Response -> state -> exn -> state -> Prop :=
| text_raises response st e :
    has_function_call response = false ->
    text response = Err e ->
    turn_raises self 0 response st e st
| follow_up_raises response st answers st1 e w2 :
    has_function_call response = true ->
    for_function_calls self (function_calls_of response) [] st = (Return answers, st1) ->
    send_message (FunctionResponses answers) (world st1) = (Err e, w2) ->
    turn_raises self 1 response st e
      {| world := w2; log := log st1 ++ [Sent (FunctionResponses answers)] |}
| later_raises n response st answers st1 response' w2 e st' :
    has_function_call response = true ->
    for_function_calls self (function_calls_of response) [] st = (Return answers, st1) ->
    send_message (FunctionResponses answers) (world st1) = (Ok response', w2) ->
    turn_raises self n response'
      {| world := w2; log := log st1 ++ [Sent (FunctionResponses answers)] |} e st' ->
    turn_raises self (S n) response st e st'.

End Chat.

(** *** A scripted model *)

(** A remote whose model answers from a script, one entry per message, and
    raises once the script is used up; the push service accepts everything
    and no credentials are set. *)
Definition script_exhausted : exn :=
  {| exn_class := OtherException; exn_str := "script exhausted" |}.

Definition scripted : Remote := {|
  World := list (result Response);
  start_chat := fun _ _ w => (Ok tt, w);
  send_message := fun _ w =>
    match w with
    | [] => (Err script_exhausted, [])
    | r :: rest => (r, rest)
    end;
  requests_post := fun _ _ w => (Ok tt, w);
  print := fun _ w => w;
  PUSHOVER_TOKEN := None;
  PUSHOVER_USER := None
|}.

(** *** Sample data for runs against the scripted model *)

Definition sample_model : GenerativeModel :=
  {| model_name := "gemini-1.5-flash-latest"; system_instruction := "" |}.

Definition sample_me : @Me scripted :=
  {| model := Some sample_model; tools := @registered_tools scripted |}.

Definition unconfigured_me : @Me scripted := {| model := None; tools := ∅ |}.

Definition text_response (t : string) : Response :=
  {| parts := [{| part_text := t; function_call := None |}]; text := Ok t |}.

Definition no_text : exn :=
  {| exn_class := OtherException; exn_str := "the response has no text" |}.

Definition call_response (function_calls : list FunctionCall) : Response :=
  {| parts := map (fun fc => {| part_text := ""; function_call := Some fc |}) function_calls;
     text := Err no_text |}.

Definition ask_question : FunctionCall :=
  {| fc_name := "record_unknown_question";
     fc_args := [("question", "Do you play chess?")] |}.



Definition deadline_exceeded : exn :=
  {| exn_class := OtherException; exn_str := "deadline exceeded" |}.

(** A state of the scripted remote: what is left of the script, and the log. *)
Definition scripted_state (script : list (result Response)) (events : list event)
  : @state scripted :=
  @Build_state scripted script events.

(** ** Further notions for the tokenizer *)

(** Whether the character before a position is a word character, when
    [pre] is what lies between the position and a place where this is known
    to be [prev_word]. *)
Fixpoint word_before (prev_word : bool) (pre : string) : bool :=
  match pre with
  | EmptyString => prev_word
  | String c pre' => word_before (is_word c) pre'
  end.

(** Whether a text begins with a word character. *)
Definition starts_with_word (post : string) : bool :=
  match post with
  | EmptyString => false
  | String c _ => is_word c
  end.

(** [m] stands in [text] between two places that are not word characters:
    the ends of the text or characters outside [\w]. *)
Definition delimited_in (m text : string) : Prop :=
  exists pre post,
    text = pre +:+ m +:+ post
    /\ word_before false pre = false
    /\ starts_with_word post = false.

(** The state of the scan: the characters still to be passed are letters,
    and they follow a letter. *)
Definition inside_match (skip : nat) (prev_word : bool) (s : string) : Prop :=
  skip = 0%nat
  \/ (prev_word = true
      /\ exists a b, s = a +:+ b /\ String.length a = skip
                     /\ forallb is_letter (chars a) = true).

(** ** Further notions for the chat orchestrator *)

(** The events in which the text of the user goes to the model. *)
Definition is_user_send (ev : event) : bool :=
  match ev with
  | Sent (Text _) => true
  | _ => false
  end.

Section PushNotions.

Context `{R : Remote}.

(** The push service cannot make [push] raise: it is switched off for want
    of a credential, or [requests.post] fails with [RequestException]s
    only. *)
Definition push_harmless : Prop :=
  truthy PUSHOVER_TOKEN && truthy PUSHOVER_USER = false
  \/ forall url data w e w',
       requests_post url data w = (Err e, w') -> exn_class e = RequestException.

End PushNotions.


(** ** Secrets *)

(** [os.getenv(key, default)]. *)
Definition os_getenv (environ : gmap string string) (key : string)
  (default : option string) : option string :=
  match environ !! key with
  | Some v => Some v
  | None => default
  end.

(** [safe_get_secret]; [secrets] is [None] when reading [st.secrets] raises. *)
Definition safe_get_secret (secrets : option (gmap string string))
  (environ : gmap string string) (key : string) (default : option string)
  : option string :=
  match secrets with
  | Some table =>
      match table !! key with
      | Some v => Some v
      | None => os_getenv environ key default
      end
  | None => os_getenv environ key default
  end.

(** ** Start-up: the documents and the chatbot object *)

(** What [st.warning] and [st.error] show. *)
Inductive notice : Type :=
| StWarning (s : string)
| StErrorNotice (s : string).

(** What opening or reading a file gives: its content, a
    [FileNotFoundError], or another exception. *)
Inductive file_result (A : Type) : Type :=
| Content (a : A)
| FileNotFound
| ReadFailure (e : exn).
Arguments Content {A} a.
Arguments FileNotFound {A}.
Arguments ReadFailure {A} e.

(** [sep.join(l)]. *)
Fixpoint join (sep : string) (l : list string) : string :=
  match l with
  | [] => EmptyString
  | [x] => x
  | x :: rest => x +:+ sep +:+ join sep rest
  end.

(** [p.extract_text() or ""] for the pages in turn; the first page that
    raises ends the reading. *)
Fixpoint extract_pages (pages : list (file_result (option string)))
  : file_result (list string) :=
  match pages with
  | [] => Content []
  | p :: rest =>
      match p with
      | Content t =>
          match extract_pages rest with
          | Content ts => Content (default EmptyString t :: ts)
          | FileNotFound => FileNotFound
          | ReadFailure e => ReadFailure e
          end
      | FileNotFound => FileNotFound
      | ReadFailure e => ReadFailure e
      end
  end.

Definition name : string := "Vaibhav Karad".

(** [Me._get_system_prompt]. *)
Definition _get_system_prompt (summary linkedin cv : string) : string :=
  "You are a helpful AI assistant representing " +:+ name
  +:+ ". Your goal is to answer questions about him professionally and accurately. "
  +:+ "Use the provided summary, CV, and LinkedIn information to respond to users."
  +:+ nl +:+ nl
  +:+ "## Summary:" +:+ nl +:+ summary +:+ nl +:+ nl
  +:+ "## LinkedIn Profile:" +:+ nl +:+ linkedin +:+ nl +:+ nl
  +:+ "## CV / Resume:" +:+ nl +:+ cv +:+ nl +:+ nl
  +:+ "Your instructions are:" +:+ nl
  +:+ "1. Be friendly, professional, and concise." +:+ nl
  +:+ "2. If you are unsure of an answer or the information is not in your context, you MUST use the `record_unknown_question` tool to log the question." +:+ nl
  +:+ "3. Actively encourage users who seem interested in hiring or connecting to provide their name and email. Use the `record_user_details` tool to save their information." +:+ nl
  +:+ "4. Do not make up information. Stick strictly to the provided context.".

Section StartUp.

Context `{R : Remote}.

(** The files of the machine: [PdfReader(path)] with the pages it finds, and
    [open(path).read()]. *)
Variable PdfReader : string -> file_result (list (file_result (option string))).
Variable read_text : string -> file_result string.

(** [Me._read_pdf]: the text and what is shown on the way. *)
Definition _read_pdf (path : string) : string * list notice :=
  match
    match PdfReader path with
    | Content pages => extract_pages pages
    | FileNotFound => FileNotFound
    | ReadFailure e => ReadFailure e
    end
  with
  | Content texts => (join nl texts, [])
  | FileNotFound =>
      ("Not available.",
       [StWarning ("Warning: PDF file not found at '" +:+ path +:+ "'.")])
  | ReadFailure e =>
      ("Error reading file.",
       [StErrorNotice ("Error reading PDF " +:+ path +:+ ": " +:+ exn_str e)])
  end.

(** [Me._read_file]. *)
Definition _read_file (path : string) : string * list notice :=
  match read_text path with
  | Content t => (t, [])
  | FileNotFound =>
      ("Not available.",
       [StWarning ("Warning: Text file not found at '" +:+ path +:+ "'.")])
  | ReadFailure e =>
      ("Error reading file.",
       [StErrorNotice ("Error reading file " +:+ path +:+ ": " +:+ exn_str e)])
  end.

(** [Me.__init__]: the object and what is shown.  Without a model the
    attribute [tools] is never set; the empty registry stands for that. *)
Definition Me_init (HAS_GEMINI : bool) (gemini_key : option string)
  : Me * list notice :=
  if negb HAS_GEMINI || negb (truthy gemini_key) then
    ({| model := None; tools := ∅ |},
     [StErrorNotice "Gemini AI library not found or API key is missing. Please install `google-generativeai` and set your `GEMINI_API_KEY`."])
  else
    let '(linkedin, shown1) := _read_pdf "me/linkedin.pdf" in
    let '(cv, shown2) := _read_pdf "me/cv.pdf" in
    let '(summary, shown3) := _read_file "me/summary.txt" in
    ({| model := Some {| model_name := "gemini-1.5-flash-latest";
                         system_instruction := _get_system_prompt summary linkedin cv |};
        tools := registered_tools |},
     shown1 ++ shown2 ++ shown3).


(** ** The page: one input of the user *)

Definition user_turn (user_input : string) : turn :=
  {| role := "user"; turn_parts := [user_input] |}.

Definition model_turn (response_text : string) : turn :=
  {| role := "model"; turn_parts := [response_text] |}.

(** The block [if user_input:] of the page: the history of the session after
    it.  The history handed to [chat] already has the input of the user at
    its end, and a turn that does not return leaves it there. *)
Definition on_user_input (fuel : nat) (me : Me) (user_input : option string)
  (chat_history : list turn) (st : state) : list turn * state :=
  match user_input with
  | None | Some EmptyString => (chat_history, st)
  | Some user_input =>
      let chat_history := chat_history ++ [user_turn user_input] in
      match chat fuel me user_input chat_history st with
      | (Return response_text, st') => (chat_history ++ [model_turn response_text], st')
      | (_, st') => (chat_history, st')
      end
  end.

End StartUp.

(** The loop that shows the earlier messages: the role and the text of each
    message shown, or [None] when a message to show has no part
    ([IndexError]). *)
Fixpoint display_messages (chat_history : list turn) : option (list (string * string)) :=
  match chat_history with
  | [] => Some []
  | msg :: rest =>
      if existsb (String.eqb (role msg)) ["user"; "model"] then
        let shown_role := if String.eqb (role msg) "model" then "assistant" else role msg in
        match turn_parts msg with
        | [] => None
        | text0 :: _ =>
            match display_messages rest with
            | Some shown => Some ((shown_role, text0) :: shown)
            | None => None
            end
        end
      else display_messages rest
  end.

(** The histories the page builds: pairs of a message of the user and the
    reply of the model. *)
Inductive exchanges : list turn -> Prop :=
| exchanges_nil : exchanges []
| exchanges_more chat_history user_input response_text :
    exchanges chat_history ->
    exchanges (chat_history ++ [user_turn user_input; model_turn response_text]).

(** *** Sample files *)

Definition sample_PdfReader (path : string)
  : file_result (list (file_result (option string))) :=
  if String.eqb path "me/cv.pdf"
  then Content [Content (Some "Engineer since 2015."); Content None;
                Content (Some "Rust and Go.")]
  else FileNotFound.

Definition sample_read_text (path : string) : file_result string :=
  Content "A short summary.".

(** How a message of a history is shown. *)
Definition shown_as (msg : turn) : string * string :=
  (if String.eqb (role msg) "model" then "assistant" else role msg,
   hd EmptyString (turn_parts msg)).

(** ** Reading back one escaped character *)


(** ** The tokenizer: what a match is *)

Example findall_sample :
  findall "Rust rust Go go, data_base a1bcd working-with x.abcd" =
  ["Rust"; "rust"; "working"; "with"; "abcd"].
Proof. vm_compute. reflexivity. Qed.

Example extract_sample :
  _extract_keywords (Some "beta alpha beta gamma alpha delta that THAT") 3 =
  ["alpha"; "beta"; "delta"].
Proof. vm_compute. reflexivity. Qed.


Lemma stop_here_spec count prev s m :
  stop_here count prev s = Some m ->
  forallb is_letter (chars m) = true
  /\ (4 <= count + String.length m)%nat
  /\ exists post, s = m +:+ post.
Proof.
  unfold stop_here. destruct (4 <=? count)%nat eqn:Hc; cbn [andb]; [| discriminate].
  destruct (at_boundary prev s); [| discriminate].
  intros [= <-]. apply Nat.leb_le in Hc. cbn.
  repeat split; [lia | now exists s].
Qed.

Lemma letters_then_boundary_spec s : forall count prev m,
  letters_then_boundary count prev s = Some m ->
  forallb is_letter (chars m) = true
  /\ (4 <= count + String.length m)%nat
  /\ exists post, s = m +:+ post.
Proof.
  induction s as [| c s IH]; intros count prev m; cbn [letters_then_boundary];
    [apply stop_here_spec |].
  destruct (is_letter c) eqn:Hl; [| apply stop_here_spec].
  destruct (letters_then_boundary (S count) (is_word c) s) as [m' |] eqn:Hrec;
    [| apply stop_here_spec].
  intros [= <-]. destruct (IH _ _ _ Hrec) as (Hall & Hlen & post & ->).
  unfold chars in *. cbn. rewrite Hl, Hall. repeat split; [lia | now exists post].
Qed.

Lemma match_here_spec prev s m :
  match_here prev s = Some m ->
  forallb is_letter (chars m) = true
  /\ (4 <= String.length m)%nat
  /\ exists post, s = m +:+ post.
Proof.
  unfold match_here. destruct (at_boundary prev s); [| discriminate].
  intros H. apply letters_then_boundary_spec in H. exact H.
Qed.

Lemma findall_from_spec s : forall skip prev m,
  List.In m (findall_from skip prev s) ->
  forallb is_letter (chars m) = true
  /\ (4 <= String.length m)%nat
  /\ occurs_in m s.
Proof.
  induction s as [| c s IH]; intros skip prev m; cbn [findall_from]; [intros [] |].
  assert (Hrec : forall k, List.In m (findall_from k (is_word c) s) ->
    forallb is_letter (chars m) = true
    /\ (4 <= String.length m)%nat /\ occurs_in m (String c s)).
  { intros k Hin. apply IH in Hin.
    destruct Hin as (? & ? & (pre & post & ->)).
    repeat split; auto. now exists (String c pre), post. }
  destruct skip as [| k]; [| apply Hrec].
  destruct (match_here prev (String c s)) as [m0 |] eqn:Hm; [| apply Hrec].
  intros [<- | Hin]; [| now apply Hrec in Hin].
  apply match_here_spec in Hm. destruct Hm as (? & ? & post & Hpost).
  repeat split; auto. exists "", post. exact Hpost.
Qed.

Lemma findall_spec text m :
  List.In m (findall text) ->
  forallb is_letter (chars m) = true
  /\ (4 <= String.length m)%nat
  /\ occurs_in m text.
Proof. apply findall_from_spec. Qed.

(** [lower] keeps the length and sends letters to [a-z]. *)

Lemma lower_length s : String.length (lower s) = String.length s.
Proof. induction s; cbn; congruence. Qed.

Lemma lower_char_letter c : is_letter c = true -> in_range 97 122 (lower_char c) = true.
Proof.
  destruct c as [[] [] [] [] [] [] [] []]; vm_compute; congruence.
Qed.

Lemma lower_letters s :
  forallb is_letter (chars s) = true ->
  Forall (fun c => in_range 97 122 c = true) (chars (lower s)).
Proof.
  induction s as [| c s IH]; cbn; [constructor |].
  intros H. apply andb_true_iff in H as [Hc Hs].
  constructor; [now apply lower_char_letter | now apply IH].
Qed.

(** ** The dict of counts *)

Lemma freq_get_incr w freq k :
  freq_get (freq_incr w freq) k =
  if String.eqb w k then freq_get freq k + 1 else freq_get freq k.
Proof.
  induction freq as [| [k0 n0] rest IH]; cbn.
  - destruct (String.eqb_spec w k); reflexivity.
  - destruct (String.eqb_spec k0 w) as [-> | Hne]; cbn.
    + destruct (String.eqb_spec w k); reflexivity.
    + destruct (String.eqb_spec k0 k) as [-> | Hne'].
      * destruct (String.eqb_spec w k); congruence.
      * exact IH.
Qed.

Lemma freq_incr_keys w freq k :
  List.In k (map fst (freq_incr w freq)) <-> k = w \/ List.In k (map fst freq).
Proof.
  induction freq as [| [k0 n0] rest IH]; cbn.
  - intuition.
  - destruct (String.eqb_spec k0 w) as [-> | Hne]; cbn; intuition.
Qed.

Lemma freq_incr_NoDup w freq :
  List.NoDup (map fst freq) -> List.NoDup (map fst (freq_incr w freq)).
Proof.
  induction freq as [| [k0 n0] rest IH]; cbn; intros Hnd.
  - constructor; [intros [] | constructor].
  - inversion Hnd as [| ? ? Hnotin Hrest]; subst.
    destruct (String.eqb_spec k0 w) as [-> | Hne]; cbn.
    + now constructor.
    + constructor; [| now apply IH].
      rewrite freq_incr_keys. intros [-> | Hin]; [congruence | contradiction].
Qed.

Lemma freq_get_In freq k n :
  List.NoDup (map fst freq) -> List.In (k, n) freq -> freq_get freq k = n.
Proof.
  induction freq as [| [k0 n0] rest IH]; cbn; intros Hnd Hin; [contradiction |].
  inversion Hnd as [| ? ? Hnotin Hrest]; subst.
  destruct Hin as [[= -> ->] | Hin].
  - now rewrite String.eqb_refl.
  - destruct (String.eqb_spec k0 k) as [-> | Hne]; [| now apply IH].
    exfalso. apply Hnotin. apply in_map_iff. now exists (k, n).
Qed.

Lemma occurrences_snoc words w k :
  occurrences (words ++ [w]) k =
  if String.eqb w k then occurrences words k + 1 else occurrences words k.
Proof.
  unfold occurrences. rewrite count_occ_app. cbn [count_occ].
  destruct (String.eqb_spec w k) as [-> | Hne].
  - destruct (string_dec k k); [lia | congruence].
  - destruct (string_dec w k); [congruence | lia].
Qed.

(** The dict after the loop over [words]: its keys are the words that are not
    stop words, each once, and each with the number of its occurrences. *)
Lemma count_words_spec words :
  let freq := fold_left count_word words [] in
  List.NoDup (map fst freq)
  /\ (forall k, List.In k (map fst freq) <-> List.In k words /\ is_stopword k = false)
  /\ (forall k, is_stopword k = false -> freq_get freq k = occurrences words k).
Proof.
  induction words as [| w words IH] using rev_ind; cbn zeta.
  - cbn. split; [constructor |]. split; [| reflexivity].
    intros k. split; [intros [] | intros [[] _]].
  - rewrite fold_left_app. cbn [fold_left].
    cbn zeta in IH. destruct IH as (Hnd & Hkeys & Hget).
    set (freq := fold_left count_word words []) in *.
    unfold count_word. destruct (is_stopword w) eqn:Hstop.
    + split; [exact Hnd |]. split.
      * intros k. rewrite Hkeys, in_app_iff. cbn.
        split; [tauto |]. intros [[Hin | [<- | []]] Hk]; [tauto | congruence].
      * intros k Hk. rewrite occurrences_snoc, Hget by exact Hk.
        destruct (String.eqb_spec w k); [congruence | reflexivity].
    + split; [now apply freq_incr_NoDup |]. split.
      * intros k. rewrite freq_incr_keys, Hkeys, in_app_iff. cbn.
        split.
        -- intros [-> | [Hin Hk]]; tauto.
        -- intros [[Hin | [<- | []]] Hk]; tauto.
      * intros k Hk. rewrite freq_get_incr, occurrences_snoc, Hget by exact Hk.
        reflexivity.
Qed.

(** ** The order of the ranking *)

Lemma string_compare_refl a : String.compare a a = Eq.
Proof. exact (proj2 (String_as_OT.cmp_eq a a) eq_refl). Qed.

Lemma string_leb_trans a b c :
  String.leb a b = true -> String.leb b c = true -> String.leb a c = true.
Proof.
  unfold String.leb.
  destruct (String.compare a b) eqn:Hab; try discriminate;
    destruct (String.compare b c) eqn:Hbc; try discriminate; intros _ _.
  - apply String.compare_eq_iff in Hab, Hbc. subst.
    now rewrite string_compare_refl.
  - apply String.compare_eq_iff in Hab. subst. now rewrite Hbc.
  - apply String.compare_eq_iff in Hbc. subst. now rewrite Hab.
  - apply String_as_OT.cmp_lt in Hab, Hbc.
    pose proof (String_as_OT.lt_trans _ _ _ Hab Hbc) as Hac.
    apply String_as_OT.cmp_lt in Hac. unfold String_as_OT.cmp in Hac.
    now rewrite Hac.
Qed.

Lemma string_leb_ltb a b :
  String.leb a b = true -> a <> b -> String.ltb a b = true.
Proof.
  unfold String.leb, String.ltb.
  destruct (String.compare a b) eqn:Hab; try discriminate; [| reflexivity].
  apply String.compare_eq_iff in Hab. congruence.
Qed.

(** What [ItemOrder.leb] says about two items. *)
Lemma item_leb_spec w1 n1 w2 n2 :
  ItemOrder.leb (w1, n1) (w2, n2) = true <->
  n2 < n1 \/ (n1 = n2 /\ String.leb w1 w2 = true).
Proof.
  unfold ItemOrder.leb, ItemOrder.key; cbn [fst snd].
  rewrite orb_true_iff, andb_true_iff, Z.ltb_lt, Z.eqb_eq.
  split; (intros [Hlt | [Heq Hle]]; [left; lia | right; split; [lia | exact Hle]]).
Qed.

Lemma item_leb_trans : Transitive (fun x y => is_true (ItemOrder.leb x y)).
Proof.
  intros [w1 n1] [w2 n2] [w3 n3]. unfold is_true.
  rewrite !item_leb_spec.
  intros [H12 | [-> H12]] [H23 | [-> H23]]; try (left; lia).
  right. split; [reflexivity |]. eapply string_leb_trans; eassumption.
Qed.

Lemma sorted_items_Permutation freq : Permutation freq (sorted_items freq).
Proof. apply ItemSort.Permuted_sort. Qed.

Lemma sorted_items_sorted freq :
  StronglySorted (fun x y => is_true (ItemOrder.leb x y)) (sorted_items freq).
Proof. apply ItemSort.StronglySorted_sort, item_leb_trans. Qed.

Lemma StronglySorted_nth_error {A : Type} (R : A -> A -> Prop) (l : list A) :
  StronglySorted R l ->
  forall i j x y, (i < j)%nat -> nth_error l i = Some x -> nth_error l j = Some y ->
  R x y.
Proof.
  induction 1 as [| a l Hs IH Hall]; intros i j x y Hij Hi Hj.
  - destruct i; discriminate.
  - destruct j as [| j]; [lia |]. cbn in Hj.
    destruct i as [| i]; cbn in Hi.
    + injection Hi as <-. rewrite List.Forall_forall in Hall.
      apply Hall. eapply nth_error_In; eassumption.
    + apply (IH i j); [lia | assumption | assumption].
Qed.

(** ** Slices *)

Lemma slice_to_firstn {A : Type} (l : list A) (n : Z) :
  exists k, slice_to l n = firstn k l.
Proof. unfold slice_to. destruct (n <? 0); eauto. Qed.

Lemma slice_to_map {A B : Type} (f : A -> B) (l : list A) (n : Z) :
  map f (slice_to l n) = slice_to (map f l) n.
Proof.
  unfold slice_to. rewrite List.length_map.
  destruct (n <? 0); now rewrite List.firstn_map.
Qed.

Lemma slice_to_length {A : Type} (l : list A) (n : Z) :
  0 <= n -> Z.of_nat (length (slice_to l n)) = Z.min n (Z.of_nat (length l)).
Proof.
  intros Hn. unfold slice_to.
  destruct (Z.ltb_spec n 0) as [Hneg | _]; [lia |].
  rewrite List.length_firstn. lia.
Qed.

Lemma slice_to_nil {A : Type} (n : Z) : slice_to (@nil A) n = [].
Proof. unfold slice_to. destruct (n <? 0); apply List.firstn_nil. Qed.

Lemma firstn_incl {A : Type} (k : nat) (l : list A) (x : A) :
  List.In x (firstn k l) -> List.In x l.
Proof.
  intros Hin. rewrite <- (List.firstn_skipn k l). apply in_or_app. now left.
Qed.

Lemma firstn_NoDup {A : Type} (k : nat) (l : list A) :
  List.NoDup l -> List.NoDup (firstn k l).
Proof.
  intros Hnd. rewrite <- (List.firstn_skipn k l) in Hnd.
  eapply List.NoDup_app_remove_r. exact Hnd.
Qed.

Lemma firstn_nth_error {A : Type} (k : nat) (l : list A) (i : nat) (x : A) :
  nth_error (firstn k l) i = Some x -> nth_error l i = Some x.
Proof.
  rewrite List.nth_error_firstn. destruct (i <? k)%nat; [auto | discriminate].
Qed.

(** ** The ranking of a text *)

Lemma extract_keywords_candidates text top_n :
  _extract_keywords text top_n = slice_to (candidates text) top_n.
Proof.
  destruct text as [[| c s] |]; cbn [_extract_keywords candidates];
    rewrite ?slice_to_nil, ?slice_to_map; reflexivity.
Qed.

Lemma ranked_items_NoDup text : List.NoDup (map fst (ranked_items text)).
Proof.
  unfold ranked_items.
  eapply Permutation_NoDup;
    [apply Permutation_map, sorted_items_Permutation |].
  apply (count_words_spec (words_of text)).
Qed.

Lemma ranked_items_In text w n :
  List.In (w, n) (ranked_items text) ->
  List.In w (words_of text)
  /\ is_stopword w = false
  /\ n = occurrences (words_of text) w.
Proof.
  unfold ranked_items. intros Hin.
  apply (Permutation_in _ (Permutation_sym (sorted_items_Permutation _))) in Hin.
  destruct (count_words_spec (words_of text)) as (Hnd & Hkeys & Hget).
  cbn zeta in *.
  assert (Hk : List.In w (map fst (fold_left count_word (words_of text) []))).
  { apply in_map_iff. now exists (w, n). }
  apply Hkeys in Hk. destruct Hk as [Hw Hstop].
  repeat split; auto.
  rewrite <- (Hget _ Hstop). symmetry. now apply freq_get_In.
Qed.

Lemma candidates_NoDup text : List.NoDup (candidates text).
Proof.
  destruct text as [[| c s] |]; cbn [candidates];
    [constructor | apply ranked_items_NoDup | constructor].
Qed.

Lemma words_of_spec text w :
  List.In w (words_of text) ->
  Forall (fun c => in_range 97 122 c = true) (chars w)
  /\ (4 <= String.length w)%nat
  /\ exists t, occurs_in t text /\ lower t = w.
Proof.
  unfold words_of. rewrite in_map_iff. intros (t & <- & Hin).
  apply findall_spec in Hin. destruct Hin as (Hall & Hlen & Hocc).
  split; [now apply lower_letters |].
  split; [now rewrite lower_length |].
  now exists t.
Qed.

Lemma is_stopword_false w : is_stopword w = false <-> w ∉ _STOPWORDS.
Proof. unfold is_stopword. apply bool_decide_eq_false. Qed.

Lemma candidates_In text w :
  List.In w (candidates text) ->
  exists source,
    text = Some source
    /\ List.In w (words_of source)
    /\ is_stopword w = false.
Proof.
  destruct text as [[| c s] |]; cbn [candidates]; try intros [].
  rewrite in_map_iff. intros ([w' n] & Hw & Hin). cbn in Hw. subst w'.
  apply ranked_items_In in Hin. destruct Hin as (Hin & Hstop & _).
  now exists (String c s).
Qed.

(** Two keywords of the result, the earlier one first, are in the order of
    the sort key. *)
Lemma extract_keywords_order text top_n i j wi wj :
  (i < j)%nat ->
  nth_error (_extract_keywords (Some text) top_n) i = Some wi ->
  nth_error (_extract_keywords (Some text) top_n) j = Some wj ->
  occurrences (words_of text) wj < occurrences (words_of text) wi
  \/ (occurrences (words_of text) wi = occurrences (words_of text) wj
      /\ String.ltb wi wj = true).
Proof.
  intros Hij Hi Hj.
  assert (Hitems : exists ni nj,
    nth_error (ranked_items text) i = Some (wi, ni)
    /\ nth_error (ranked_items text) j = Some (wj, nj)).
  { destruct text as [| c s]; [destruct i; discriminate |].
    cbn [_extract_keywords] in Hi, Hj.
    destruct (slice_to_firstn (ranked_items (String c s)) top_n) as [k Hk].
    rewrite Hk, List.nth_error_map in Hi, Hj.
    destruct (nth_error (firstn k _) i) as [[wi' ni] |] eqn:Hi'; [| discriminate].
    destruct (nth_error (firstn k _) j) as [[wj' nj] |] eqn:Hj'; [| discriminate].
    cbn in Hi, Hj. injection Hi as ->. injection Hj as ->.
    apply firstn_nth_error in Hi', Hj'. now exists ni, nj. }
  destruct Hitems as (ni & nj & Hi' & Hj').
  pose proof (StronglySorted_nth_error _ _ (sorted_items_sorted _)
                i j _ _ Hij Hi' Hj') as Hle.
  apply item_leb_spec in Hle.
  destruct (ranked_items_In _ _ _ (nth_error_In _ _ Hi')) as (_ & _ & ->).
  destruct (ranked_items_In _ _ _ (nth_error_In _ _ Hj')) as (_ & _ & ->).
  destruct Hle as [Hlt | [Heq Hle]]; [now left | right].
  split; [exact Heq |]. apply string_leb_ltb; [exact Hle |].
  intros ->. pose proof (ranked_items_NoDup text) as Hnd.
  rewrite List.NoDup_nth_error in Hnd.
  assert (i = j); [| lia].
  apply Hnd.
  - rewrite List.length_map. apply nth_error_Some. congruence.
  - rewrite !List.nth_error_map, Hi', Hj'. reflexivity.
Qed.

(** ** The number of suggestions *)

Lemma add_keyword_prompts_fit kws : forall suggestions max_suggestions,
  Z.of_nat (length suggestions + length kws) <= max_suggestions ->
  add_keyword_prompts kws suggestions max_suggestions = suggestions ++ map template kws.
Proof.
  induction kws as [| k rest IH]; intros suggestions m Hfit; cbn [add_keyword_prompts map].
  - now rewrite List.app_nil_r.
  - cbn [length] in Hfit.
    destruct (Z.geb_spec (Z.of_nat (length (suggestions ++ [template k]))) m) as [Hge | Hlt].
    + rewrite List.length_app in Hge. cbn [length] in Hge.
      destruct rest; [reflexivity | cbn [length] in Hfit; lia].
    + rewrite IH.
      * now rewrite <- List.app_assoc.
      * rewrite List.length_app. cbn [length]. lia.
Qed.

Lemma add_generic_prompts_length remaining : forall suggestions max_suggestions,
  Z.of_nat (length suggestions) <= max_suggestions ->
  Z.of_nat (length (add_generic_prompts remaining suggestions max_suggestions)) =
  Z.min max_suggestions (Z.of_nat (length suggestions + length remaining)).
Proof.
  induction remaining as [| g rest IH]; intros suggestions m Hle;
    cbn [add_generic_prompts length].
  - lia.
  - destruct (Z.ltb_spec (Z.of_nat (length suggestions)) m) as [Hlt | Hge].
    + rewrite IH; rewrite List.length_app; cbn [length]; lia.
    + lia.
Qed.

(** The keywords the prompts are made from. *)
Lemma used_keywords_length user_message response_text max_suggestions :
  0 <= max_suggestions ->
  let kws :=
    match _extract_keywords user_message max_suggestions with
    | [] => _extract_keywords response_text max_suggestions
    | _ :: _ => _extract_keywords user_message max_suggestions
    end in
  Z.of_nat (length kws) =
  Z.min max_suggestions (Z.of_nat (length (used_candidates user_message response_text))).
Proof.
  intros Hm. cbn zeta. unfold used_candidates.
  rewrite !extract_keywords_candidates.
  pose proof (slice_to_length (candidates user_message) _ Hm) as Hu.
  pose proof (slice_to_length (candidates response_text) _ Hm) as Hr.
  destruct (candidates user_message) as [| c cs] eqn:Hc.
  - rewrite slice_to_nil. exact Hr.
  - destruct (slice_to (c :: cs) max_suggestions) as [| k ks] eqn:Hs; [| exact Hu].
    cbn [length] in Hu. rewrite Hr. cbn [length]. lia.
Qed.

Lemma generate_suggestions_unfold user_message response_text owner max_suggestions :
  generate_suggestions user_message response_text owner max_suggestions =
  add_generic_prompts generic
    (add_keyword_prompts
       match _extract_keywords user_message max_suggestions with
       | [] => _extract_keywords response_text max_suggestions
       | _ :: _ => _extract_keywords user_message max_suggestions
       end [] max_suggestions)
    max_suggestions.
Proof.
  unfold generate_suggestions, generate_suggestions_calls.
  destruct (_extract_keywords user_message max_suggestions); reflexivity.
Qed.

(** The length of the result, for a quota that is not negative. *)
Lemma generate_suggestions_length user_message response_text owner max_suggestions :
  0 <= max_suggestions ->
  Z.of_nat (length (generate_suggestions user_message response_text owner max_suggestions)) =
  Z.min max_suggestions
    (Z.of_nat (length (used_candidates user_message response_text))
     + Z.of_nat (length generic)).
Proof.
  intros Hm. rewrite generate_suggestions_unfold.
  pose proof (used_keywords_length user_message response_text _ Hm) as Hk.
  cbn zeta in Hk.
  set (kws := match _extract_keywords user_message max_suggestions with
              | [] => _ | _ :: _ => _ end) in *.
  rewrite add_keyword_prompts_fit by (cbn [length]; lia).
  cbn [app]. rewrite add_generic_prompts_length;
    rewrite List.length_map; [| lia].
  rewrite Nat2Z.inj_add. lia.
Qed.

(** ** The chat orchestrator: how a turn runs *)

Section ChatFacts.

Context `{R : Remote}.

Local Open Scope chat_scope.

Lemma bind_Return {A B : Type} (c : M A) (k : A -> M B) st a st' :
  c st = (Return a, st') -> bind c k st = k a st'.
Proof. unfold bind. now intros ->. Qed.

Lemma bind_Raise {A B : Type} (c : M A) (k : A -> M B) st e st' :
  c st = (Raise e, st') -> bind c k st = (Raise e, st').
Proof. unfold bind. now intros ->. Qed.

Lemma send_message_Ok c st response w' :
  send_message c (world st) = (Ok response, w') ->
  chat_session_send_message c st =
  (Return response, {| world := w'; log := log st ++ [Sent c] |}).
Proof.
  intros H. unfold chat_session_send_message, bind, emit, call. cbn. now rewrite H.
Qed.

Lemma send_message_Err c st e w' :
  send_message c (world st) = (Err e, w') ->
  chat_session_send_message c st =
  (Raise e, {| world := w'; log := log st ++ [Sent c] |}).
Proof.
  intros H. unfold chat_session_send_message, bind, emit, call. cbn. now rewrite H.
Qed.


(** *** One requested call *)

Lemma tool_call_result_unknown self fc st :
  tools self !! fc_name fc = None ->
  tool_call_result self fc st = (Return (unknown_function (fc_name fc)), st).
Proof. intros H. unfold tool_call_result. cbv zeta. now rewrite H. Qed.

Lemma tool_call_result_known self fc st f r w' :
  tools self !! fc_name fc = Some f ->
  f (fc_args fc) (world st) = (r, w') ->
  tool_call_result self fc st =
  (Return (captured (fc_name fc) r),
   {| world := w'; log := log st ++ [Called (fc_name fc) (fc_args fc)] |}).
Proof.
  intros Hf Hr. unfold tool_call_result. cbv zeta. rewrite Hf.
  unfold try_except, bind, emit, call, ret. cbn. rewrite Hr.
  destruct r; reflexivity.
Qed.

Lemma tool_call_result_returns self fc st :
  exists d st',
    tool_call_result self fc st = (Return d, st')
    /\ log st' = log st ++ executions self [fc].
Proof.
  unfold executions. cbn [flat_map].
  destruct (tools self !! fc_name fc) as [f |] eqn:Hf.
  - destruct (f (fc_args fc) (world st)) as [r w'] eqn:Hr.
    rewrite (tool_call_result_known _ _ _ _ _ _ Hf Hr). eauto.
  - rewrite (tool_call_result_unknown _ _ _ Hf).
    exists (unknown_function (fc_name fc)), st. now rewrite !List.app_nil_r.
Qed.

(** *** The calls of one response *)

(** The loop over the calls never raises: it returns one answer per call, in
    order and under the name of its call, after running the tools there are. *)
Lemma for_function_calls_returns self function_calls :
  forall function_responses st,
  exists answers st',
    for_function_calls self function_calls function_responses st =
    (Return (function_responses ++ answers), st')
    /\ map fr_name answers = map fc_name function_calls
    /\ log st' = log st ++ executions self function_calls.
Proof.
  induction function_calls as [| fc rest IH]; intros acc st; cbn [for_function_calls].
  - exists [], st. unfold ret, executions. cbn. now rewrite !List.app_nil_r.
  - destruct (tool_call_result_returns self fc st) as (d & st1 & Hd & Hlog1).
    rewrite (bind_Return _ _ _ _ _ Hd).
    destruct (IH (acc ++ [answer fc d]) st1) as (answers & st' & Hrest & Hnames & Hlog).
    exists (answer fc d :: answers), st'. split; [| split].
    + unfold answer in *. rewrite Hrest, <- List.app_assoc. reflexivity.
    + cbn. now rewrite Hnames.
    + rewrite Hlog, Hlog1. unfold executions. cbn [flat_map].
      rewrite List.app_nil_r, <- List.app_assoc. reflexivity.
Qed.



(** *** The loop *)

Lemma while_no_calls fuel self response st :
  has_function_call response = false ->
  while_function_calls fuel self response st = (Return response, st).
Proof. intros H. destruct fuel; cbn [while_function_calls]; now rewrite H. Qed.

Lemma while_round_Ok fuel self response st answers st1 response' w2 :
  has_function_call response = true ->
  for_function_calls self (function_calls_of response) [] st = (Return answers, st1) ->
  send_message (FunctionResponses answers) (world st1) = (Ok response', w2) ->
  while_function_calls (S fuel) self response st =
  while_function_calls fuel self response'
    {| world := w2; log := log st1 ++ [Sent (FunctionResponses answers)] |}.
Proof.
  intros Hcall Hfor Hsend. cbn [while_function_calls]. rewrite Hcall.
  rewrite (bind_Return _ _ _ _ _ Hfor).
  now rewrite (bind_Return _ _ _ _ _ (send_message_Ok _ _ _ _ Hsend)).
Qed.

Lemma while_round_Err fuel self response st answers st1 e w2 :
  has_function_call response = true ->
  for_function_calls self (function_calls_of response) [] st = (Return answers, st1) ->
  send_message (FunctionResponses answers) (world st1) = (Err e, w2) ->
  while_function_calls (S fuel) self response st =
  (Raise e, {| world := w2; log := log st1 ++ [Sent (FunctionResponses answers)] |}).
Proof.
  intros Hcall Hfor Hsend. cbn [while_function_calls]. rewrite Hcall.
  rewrite (bind_Return _ _ _ _ _ Hfor).
  now rewrite (bind_Raise _ _ _ _ _ (send_message_Err _ _ _ _ Hsend)).
Qed.





(** *** The turn *)

Lemma chat_unconfigured fuel self user_message chat_history st :
  model self = None ->
  chat fuel self user_message chat_history st = (Return not_configured, st).
Proof. intros H. unfold chat. now rewrite H. Qed.

Lemma chat_started fuel self m user_message chat_history w0 w1 l0 :
  model self = Some m ->
  start_chat m chat_history w0 = (Ok tt, w1) ->
  chat fuel self user_message chat_history {| world := w0; log := l0 |} =
  try_except (chat_try fuel self user_message)
    (fun e => emit (StError (error_notice e)) ;; ret apology)
    {| world := w1; log := l0 |}.
Proof.
  intros Hm Hstart. unfold chat. rewrite Hm.
  unfold bind at 1. unfold call. cbn [world log]. now rewrite Hstart.
Qed.


Lemma try_except_Raise {A : Type} (body : M A) handler st e st' :
  body st = (Raise e, st') -> try_except body handler st = handler e st'.
Proof. unfold try_except. now intros ->. Qed.

Lemma apologize e st :
  (emit (StError (error_notice e)) ;; ret apology) st =
  (Return apology, {| world := world st; log := log st ++ [StError (error_notice e)] |}).
Proof. reflexivity. Qed.

(** A run of the remote interaction that ends in an exception makes the
    [try] block raise it, given loop turns for the follow-ups it sends. *)
Lemma turn_raises_run self n response st e st' :
  turn_raises self n response st e st' ->
  forall fuel, (n <= fuel)%nat ->
  (response <- while_function_calls fuel self response ;; access (text response)) st =
  (Raise e, st').
Proof.
  induction 1 as [response st e Hcall Htext
                 | response st answers st1 e w2 Hcall Hfor Hsend
                 | n response st answers st1 response' w2 e st' Hcall Hfor Hsend _ IH];
    intros fuel Hfuel.
  - rewrite (bind_Return _ _ _ _ _ (while_no_calls _ _ _ _ Hcall)).
    unfold access. now rewrite Htext.
  - destruct fuel as [| fuel]; [lia |].
    apply bind_Raise. now apply while_round_Err.
  - destruct fuel as [| fuel]; [lia |].
    unfold bind at 1.
    rewrite (while_round_Ok _ _ _ _ _ _ _ _ Hcall Hfor Hsend).
    apply IH. lia.
Qed.








End ChatFacts.

(** ** The properties of the suggestion generator *)

(** Claim C1, with its two amendments: the quota is not negative, and the
    candidate keywords that count are those of the one text the keywords are
    taken from.  For every pair of texts and every [max_suggestions >= 0],
    [generate_suggestions] returns at most [max_suggestions] strings, and
    exactly [max_suggestions] of them whenever the candidate keywords of the
    text in use plus the three generic prompts are at least that many. *)
Theorem generate_suggestions_quota user_message response_text owner max_suggestions :
  0 <= max_suggestions ->
  Z.of_nat (length (generate_suggestions user_message response_text owner max_suggestions))
    <= max_suggestions
  /\ (max_suggestions <=
        Z.of_nat (length (used_candidates user_message response_text))
        + Z.of_nat (length generic) ->
      Z.of_nat (length (generate_suggestions user_message response_text owner
                          max_suggestions)) = max_suggestions).
Proof.
  intros Hm.
  rewrite (generate_suggestions_length _ _ _ _ Hm). split; [lia |].
  intros Henough. lia.
Qed.

Lemma generate_suggestions_quota_witness :
  Z.of_nat (length (generate_suggestions (Some "alpha beta") (Some "gamma") None 2)) <= 2
  /\ Z.of_nat (length (generate_suggestions (Some "alpha beta") (Some "gamma") None 2)) = 2.
Proof.
  destruct (generate_suggestions_quota (Some "alpha beta") (Some "gamma") None 2)
    as [Hmost Hexact]; [lia |].
  split; [exact Hmost |].
  apply Hexact. apply Z.leb_le. vm_compute. reflexivity.
Defined.

(** Claim C1 as it is written fails twice.  With one keyword in the user
    message, one in the response and a quota of five, the keywords and the
    generic prompts of both texts are five, yet four strings come back: the
    response is not read.  With a quota of [-1] one string comes back, which
    is more than the quota. *)
Lemma generate_suggestions_quota_counterexample :
  (5 <= Z.of_nat (length (candidates (Some "alpha")))
        + Z.of_nat (length (candidates (Some "beta")))
        + Z.of_nat (length generic)
   /\ generate_suggestions (Some "alpha") (Some "beta") None 5 =
      ["Can you tell me more about alpha?"; "How did you achieve that?";
       "What tools or technologies were used?";
       "Can you share a brief example or outcome?"]
   /\ Z.of_nat (length (generate_suggestions (Some "alpha") (Some "beta") None 5)) <> 5)
  /\ (generate_suggestions (Some "alpha beta") None None (-1) =
      ["Can you tell me more about alpha?"]
      /\ ~ (Z.of_nat (length (generate_suggestions (Some "alpha beta") None None (-1)))
             <= -1)).
Proof.
  repeat split; try (vm_compute; reflexivity); vm_compute; congruence.
Qed.

(** Claim C2.  Of two keywords of a result the earlier one occurs more often
    in the text, or as often and is the smaller one in alphabetical order;
    the words of "Rust rust Go go" are "rust" twice, the two-letter tokens
    being too short; and for this user message and a quota of 3 the result
    is the prompt for "rust" followed by the first two generic prompts,
    whatever the response text. *)
Theorem keyword_ranking_order :
  (forall text top_n i j wi wj,
     (i < j)%nat ->
     nth_error (_extract_keywords (Some text) top_n) i = Some wi ->
     nth_error (_extract_keywords (Some text) top_n) j = Some wj ->
     occurrences (words_of text) wj < occurrences (words_of text) wi
     \/ (occurrences (words_of text) wi = occurrences (words_of text) wj
         /\ String.ltb wi wj = true))
  /\ words_of "Rust rust Go go" = ["rust"; "rust"]
  /\ (forall response_text owner,
        generate_suggestions (Some "Rust rust Go go") response_text owner 3 =
        ["Can you tell me more about rust?";
         "How did you achieve that?";
         "What tools or technologies were used?"]).
Proof.
  split; [exact extract_keywords_order |].
  split; [vm_compute; reflexivity |].
  intros response_text owner. rewrite generate_suggestions_unfold.
  assert (H : _extract_keywords (Some "Rust rust Go go") 3 = ["rust"])
    by (vm_compute; reflexivity).
  rewrite H. vm_compute. reflexivity.
Qed.

Lemma keyword_ranking_order_witness :
  occurrences (words_of "beta gamma alpha beta") "alpha"
    < occurrences (words_of "beta gamma alpha beta") "beta"
  \/ (occurrences (words_of "beta gamma alpha beta") "beta"
        = occurrences (words_of "beta gamma alpha beta") "alpha"
      /\ String.ltb "beta" "alpha" = true).
Proof.
  apply (proj1 keyword_ranking_order "beta gamma alpha beta" 3 0%nat 1%nat "beta" "alpha").
  - lia.
  - vm_compute. reflexivity.
  - vm_compute. reflexivity.
Defined.

(** Claim C7.  No keyword of a result is a stop word; the text
    "that this from about" has no keywords, and with it as user message the
    response text is read; in general the response text is handed to
    [_extract_keywords] exactly when the user message gave no keywords, and
    otherwise the result does not depend on it; for a quota of at least one
    the user message gives no keywords exactly when it has no candidate. *)
Theorem stopwords_discarded_and_fallback :
  (forall text top_n w, List.In w (_extract_keywords text top_n) -> w ∉ _STOPWORDS)
  /\ (forall top_n, _extract_keywords (Some "that this from about") top_n = [])
  /\ (forall response_text owner max_suggestions,
        generate_suggestions_calls (Some "that this from about") response_text owner
          max_suggestions =
        ([UserMessage; ResponseText],
         add_generic_prompts generic
           (add_keyword_prompts (_extract_keywords response_text max_suggestions) []
              max_suggestions)
           max_suggestions))
  /\ (forall user_message response_text owner max_suggestions,
        List.In ResponseText
          (fst (generate_suggestions_calls user_message response_text owner
                  max_suggestions))
        <-> _extract_keywords user_message max_suggestions = [])
  /\ (forall user_message response_text response_text' owner max_suggestions,
        _extract_keywords user_message max_suggestions <> [] ->
        generate_suggestions user_message response_text owner max_suggestions =
        generate_suggestions user_message response_text' owner max_suggestions)
  /\ (forall user_message max_suggestions,
        1 <= max_suggestions ->
        _extract_keywords user_message max_suggestions = [] <->
        candidates user_message = []).
Proof.
  assert (Hall : forall top_n, _extract_keywords (Some "that this from about") top_n = []).
  { intros top_n. rewrite extract_keywords_candidates.
    replace (candidates (Some "that this from about")) with (@nil string)
      by (vm_compute; reflexivity).
    apply slice_to_nil. }
  split; [| split; [exact Hall | split; [| split; [| split]]]].
  - intros text top_n w. rewrite extract_keywords_candidates.
    destruct (slice_to_firstn (candidates text) top_n) as [k ->].
    intros Hin. apply firstn_incl, candidates_In in Hin.
    destruct Hin as (source & _ & _ & Hstop). now apply is_stopword_false.
  - intros response_text owner max_suggestions.
    unfold generate_suggestions_calls. now rewrite Hall.
  - intros user_message response_text owner max_suggestions.
    unfold generate_suggestions_calls.
    destruct (_extract_keywords user_message max_suggestions) as [| k ks]; cbn.
    + split; [reflexivity | auto].
    + split; [intros [H | []]; discriminate | discriminate].
  - intros user_message response_text response_text' owner max_suggestions Hne.
    rewrite !generate_suggestions_unfold.
    destruct (_extract_keywords user_message max_suggestions); [congruence | reflexivity].
  - intros user_message max_suggestions Hm. rewrite extract_keywords_candidates.
    pose proof (slice_to_length (candidates user_message) max_suggestions ltac:(lia))
      as Hlen.
    split; intros Hnil.
    + rewrite Hnil in Hlen.
      destruct (candidates user_message); [reflexivity | cbn [length] in Hlen; lia].
    + rewrite Hnil. apply slice_to_nil.
Qed.

Lemma stopwords_discarded_and_fallback_witness :
  ("hello" ∉ _STOPWORDS)
  /\ generate_suggestions (Some "hello there") (Some "first") None 3 =
     generate_suggestions (Some "hello there") (Some "second") None 3
  /\ (_extract_keywords (Some "with them") 3 = [] <-> candidates (Some "with them") = []).
Proof.
  destruct stopwords_discarded_and_fallback as (Hstop & _ & _ & _ & Hsame & Hnone).
  split; [| split].
  - apply (Hstop (Some "hello there") 3 "hello"). vm_compute. left. reflexivity.
  - apply (Hsame (Some "hello there") (Some "first") (Some "second") None 3).
    vm_compute. discriminate.
  - apply (Hnone (Some "with them") 3). lia.
Defined.

(** Claim C8, amended to a quota of at least one: for every pair of texts
    and every [max_suggestions >= 1] the result of [generate_suggestions]
    is not empty. *)
Theorem generate_suggestions_nonempty user_message response_text owner max_suggestions :
  1 <= max_suggestions ->
  generate_suggestions user_message response_text owner max_suggestions <> [].
Proof.
  intros Hm Hnil.
  pose proof (generate_suggestions_length user_message response_text owner
                max_suggestions ltac:(lia)) as Hlen.
  rewrite Hnil in Hlen. cbn [length generic] in Hlen. lia.
Qed.

Lemma generate_suggestions_nonempty_witness :
  generate_suggestions None None None 1 <> [].
Proof. apply generate_suggestions_nonempty. lia. Defined.

(** Claim C8 as it is written fails for the quota 0: the result is empty,
    also when both texts have keywords. *)
Lemma generate_suggestions_nonempty_counterexample :
  generate_suggestions (Some "hello world") (Some "more words here") None 0 = [].
Proof. vm_compute. reflexivity. Qed.

(** Claim C10, amended in its bound: for every text and [top_n] the result
    of [_extract_keywords] has no duplicates, and each of its elements is
    made of the letters a to z, is at least four characters long, is the
    lower-case form of a run of characters of the text and is not a stop
    word; for [None] and for the empty text the result is empty; and for
    [top_n >= 0] the result has at most [top_n] elements. *)
Theorem extract_keywords_postcondition (text : option string) (top_n : Z) :
  (0 <= top_n -> Z.of_nat (length (_extract_keywords text top_n)) <= top_n)
  /\ List.NoDup (_extract_keywords text top_n)
  /\ (forall w, List.In w (_extract_keywords text top_n) ->
        Forall (fun c => in_range 97 122 c = true) (chars w)
        /\ (4 <= String.length w)%nat
        /\ (exists source t, text = Some source /\ occurs_in t source /\ lower t = w)
        /\ w ∉ _STOPWORDS)
  /\ _extract_keywords None top_n = []
  /\ _extract_keywords (Some "") top_n = [].
Proof.
  rewrite extract_keywords_candidates.
  split; [| split; [| split; [| split; reflexivity]]].
  - intros Hn. rewrite slice_to_length by exact Hn. lia.
  - destruct (slice_to_firstn (candidates text) top_n) as [k ->].
    apply firstn_NoDup, candidates_NoDup.
  - intros w. destruct (slice_to_firstn (candidates text) top_n) as [k ->].
    intros Hin. apply firstn_incl, candidates_In in Hin.
    destruct Hin as (source & -> & Hw & Hstop).
    apply words_of_spec in Hw. destruct Hw as (Hlow & Hlen & t & Hocc & Hlower).
    repeat split; auto.
    + now exists source, t.
    + now apply is_stopword_false.
Qed.

Lemma extract_keywords_postcondition_witness :
  Z.of_nat (length (_extract_keywords (Some "Alpha beta alpha") 1)) <= 1
  /\ (4 <= String.length "alpha")%nat
  /\ "alpha" ∉ _STOPWORDS.
Proof.
  destruct (extract_keywords_postcondition (Some "Alpha beta alpha") 1)
    as (Hlen & _ & Hin & _).
  split; [apply Hlen; lia |].
  destruct (Hin "alpha") as (_ & H4 & _ & Hstop).
  - vm_compute. left. reflexivity.
  - split; [exact H4 | exact Hstop].
Defined.

(** Claim C10 as it is written fails for a negative [top_n]: the slice
    [items[:-1]] drops the last item only, so one keyword comes back, which
    is more than [-1]. *)
Lemma extract_keywords_postcondition_counterexample :
  _extract_keywords (Some "alpha beta") (-1) = ["alpha"]
  /\ ~ (Z.of_nat (length (_extract_keywords (Some "alpha beta") (-1))) <= -1).
Proof.
  split; [vm_compute; reflexivity | vm_compute; congruence].
Qed.

(** ** The properties of the chat orchestrator *)

Section ChatClaims.

Context `{R : Remote}.

Local Open Scope chat_scope.

(** Claim C3.  Without a configured model [chat] returns the fixed notice,
    for every message and history, and leaves the state as it was: no
    message is sent and the outside world is not touched. *)
Theorem chat_without_model fuel self user_message chat_history st :
  model self = None ->
  chat fuel self user_message chat_history st =
  (Return "The AI model is not configured. Please check your API key.", st).
Proof. apply chat_unconfigured. Qed.




(** Claim C9.  With a configured model and a started session, an exception
    raised while the first message is sent, while a follow-up message is
    sent or while the text of the last response is read makes [chat] return
    the apology, with the notice shown; and [chat] never raises. *)
Theorem remote_failure_apology fuel self m user_message chat_history w0 w1 l0 :
  model self = Some m ->
  start_chat m chat_history w0 = (Ok tt, w1) ->
  (forall e w2,
     send_message (Text user_message) w1 = (Err e, w2) ->
     chat fuel self user_message chat_history {| world := w0; log := l0 |} =
     (Return "Sorry, I encountered an error. Please try again.",
      {| world := w2;
         log := l0 ++ [Sent (Text user_message); StError (error_notice e)] |}))
  /\ (forall response w2 n e st',
        send_message (Text user_message) w1 = (Ok response, w2) ->
        turn_raises self n response
          {| world := w2; log := l0 ++ [Sent (Text user_message)] |} e st' ->
        (n <= fuel)%nat ->
        chat fuel self user_message chat_history {| world := w0; log := l0 |} =
        (Return "Sorry, I encountered an error. Please try again.",
         {| world := world st'; log := log st' ++ [StError (error_notice e)] |}))
  /\ (forall out st',
        chat fuel self user_message chat_history {| world := w0; log := l0 |} = (out, st') ->
        forall e, out <> Raise e).
Proof.
  intros Hm Hstart. rewrite (chat_started _ _ _ _ _ _ _ _ Hm Hstart).
  split; [| split].
  - intros e w2 Hsend.
    rewrite (try_except_Raise _ _ _ e
               {| world := w2; log := l0 ++ [Sent (Text user_message)] |}).
    + rewrite apologize. cbn [world log]. rewrite <- List.app_assoc. reflexivity.
    + unfold chat_try. apply bind_Raise.
      exact (send_message_Err (Text user_message) {| world := w1; log := l0 |} _ _ Hsend).
  - intros response w2 n e st' Hsend Hraises Hfuel.
    rewrite (try_except_Raise _ _ _ e st').
    + now rewrite apologize.
    + unfold chat_try.
      rewrite (bind_Return _ _ _ _ _
                 (send_message_Ok (Text user_message) {| world := w1; log := l0 |} _ _ Hsend)).
      exact (turn_raises_run _ _ _ _ _ _ Hraises fuel Hfuel).
  - intros out st' Hrun e ->. unfold try_except in Hrun.
    destruct (chat_try fuel self user_message {| world := w1; log := l0 |})
      as [[a | e' |] st1]; try discriminate.
Qed.

End ChatClaims.

(** ** Runs against the scripted model *)

Lemma chat_without_model_witness :
  chat 3 unconfigured_me "Hello" []
    (scripted_state [Ok (text_response "Hi")]
       []) =
  (Return "The AI model is not configured. Please check your API key.",
   (scripted_state [Ok (text_response "Hi")]
       [])).
Proof. apply (@chat_without_model scripted). reflexivity. Defined.




Lemma remote_failure_apology_witness :
  fst (chat 0 sample_me "Hello" [] (scripted_state [Err deadline_exceeded]
       []))
    = Return "Sorry, I encountered an error. Please try again."
  /\ fst (chat 1 sample_me "Hello" []
            (scripted_state [Ok (call_response [ask_question]); Err deadline_exceeded]
       []))
    = Return "Sorry, I encountered an error. Please try again."
  /\ fst (chat 0 sample_me "Hello" []
            (scripted_state [Ok (call_response [])]
       []))
    = Return "Sorry, I encountered an error. Please try again.".
Proof.
  unfold scripted_state. split; [| split].
  - destruct (@remote_failure_apology scripted 0%nat sample_me sample_model "Hello" []
                [Err deadline_exceeded] [Err deadline_exceeded] [] eq_refl eq_refl) as (Hfirst & _ & _).
    rewrite (Hfirst deadline_exceeded [] eq_refl). reflexivity.
  - destruct (@remote_failure_apology scripted 1%nat sample_me sample_model "Hello" []
                [Ok (call_response [ask_question]); Err deadline_exceeded]
                [Ok (call_response [ask_question]); Err deadline_exceeded] [] eq_refl eq_refl)
      as (_ & Hlater & _).
    erewrite (Hlater (call_response [ask_question]) [Err deadline_exceeded] 1%nat deadline_exceeded);
      [reflexivity | reflexivity | | lia].
    eapply (@follow_up_raises scripted); reflexivity.
  - destruct (@remote_failure_apology scripted 0%nat sample_me sample_model "Hello" []
                [Ok (call_response [])] [Ok (call_response [])] [] eq_refl eq_refl)
      as (_ & Hlater & _).
    erewrite (Hlater (call_response []) [] 0%nat no_text);
      [reflexivity | reflexivity | | lia].
    apply (@text_raises scripted); reflexivity.
Defined.

(** ** More on the tokenizer: the matches are the delimited runs of letters *)

Lemma is_letter_word c : is_letter c = true -> is_word c = true.
Proof. unfold is_word. intros ->. now rewrite orb_true_r. Qed.

Lemma at_boundary_after_word s :
  at_boundary true s = true <-> starts_with_word s = false.
Proof.
  destruct s as [| c s]; cbn; [split; auto |].
  destruct (is_word c); cbn; split; congruence.
Qed.

Lemma letters_then_boundary_end s : forall count prev m,
  letters_then_boundary count prev s = Some m ->
  m <> EmptyString \/ prev = true ->
  exists post, s = m +:+ post /\ starts_with_word post = false.
Proof.
  assert (Hstop : forall s count prev m,
    stop_here count prev s = Some m ->
    m <> EmptyString \/ prev = true ->
    exists post, s = m +:+ post /\ starts_with_word post = false).
  { intros s0 count prev m. unfold stop_here.
    destruct (4 <=? count)%nat; cbn [andb]; [| discriminate].
    destruct (at_boundary prev s0) eqn:Hb; [| discriminate].
    intros [= <-] [Hne | ->]; [congruence |].
    exists s0. split; [reflexivity | now apply at_boundary_after_word]. }
  induction s as [| c s IH]; intros count prev m; cbn [letters_then_boundary];
    [apply Hstop |].
  destruct (is_letter c) eqn:Hl; [| apply Hstop].
  destruct (letters_then_boundary (S count) (is_word c) s) as [m' |] eqn:Hrec;
    [| apply Hstop].
  intros [= <-] _.
  destruct (IH _ _ _ Hrec) as (post & -> & Hpost).
  - right. now apply is_letter_word.
  - now exists post.
Qed.

Lemma letters_then_boundary_complete m : forall count prev post,
  forallb is_letter (chars m) = true ->
  starts_with_word post = false ->
  (4 <= count + String.length m)%nat ->
  (m = EmptyString -> prev = true) ->
  letters_then_boundary count prev (m +:+ post) = Some m.
Proof.
  induction m as [| c m IH]; intros count prev post Hall Hpost Hlen Hprev.
  - rewrite (Hprev eq_refl). change (EmptyString +:+ post) with post.
    cbn [String.length] in Hlen.
    assert (Hstop : stop_here count true post = Some EmptyString).
    { unfold stop_here.
      rewrite (proj2 (at_boundary_after_word post) Hpost).
      destruct (Nat.leb_spec 4 count) as [_ | Hlt]; [reflexivity | lia]. }
    destruct post as [| c' post]; cbn [letters_then_boundary]; [exact Hstop |].
    destruct (is_letter c') eqn:Hl; [| exact Hstop].
    apply is_letter_word in Hl. cbn in Hpost. congruence.
  - unfold chars in *. cbn in Hall. apply andb_true_iff in Hall as [Hc Hm].
    change (String c m +:+ post) with (String c (m +:+ post)).
    cbn [letters_then_boundary]. rewrite Hc.
    rewrite (IH (S count) (is_word c) post Hm Hpost).
    + reflexivity.
    + cbn [String.length] in Hlen. lia.
    + intros _. now apply is_letter_word.
Qed.

Lemma findall_from_delimited s : forall skip prev m,
  List.In m (findall_from skip prev s) ->
  exists pre post,
    s = pre +:+ m +:+ post
    /\ word_before prev pre = false
    /\ starts_with_word post = false.
Proof.
  induction s as [| c s IH]; intros skip prev m; cbn [findall_from]; [intros [] |].
  assert (Hrec : forall k, List.In m (findall_from k (is_word c) s) ->
    exists pre post,
      String c s = pre +:+ m +:+ post
      /\ word_before prev pre = false /\ starts_with_word post = false).
  { intros k Hin. apply IH in Hin. destruct Hin as (pre & post & -> & Hpre & Hpost).
    now exists (String c pre), post. }
  destruct skip as [| k]; [| apply Hrec].
  destruct (match_here prev (String c s)) as [m0 |] eqn:Hm; [| apply Hrec].
  intros [<- | Hin]; [| now apply Hrec in Hin].
  unfold match_here in Hm.
  destruct (at_boundary prev (String c s)) eqn:Hb; [| discriminate].
  pose proof (letters_then_boundary_spec _ _ _ _ Hm) as (Hall & Hlen & _).
  destruct m0 as [| c0 m0]; [cbn in Hlen; lia |].
  destruct (letters_then_boundary_end _ _ _ _ Hm ltac:(left; discriminate))
    as (post & Hs & Hpost).
  exists "", post. split; [exact Hs |]. split; [| exact Hpost].
  cbn in Hs. injection Hs as -> _.
  unfold chars in Hall. cbn in Hall. apply andb_true_iff in Hall as [Hc _].
  apply is_letter_word in Hc. cbn in Hb. rewrite Hc in Hb.
  cbn. now destruct prev.
Qed.

Lemma findall_from_complete pre : forall s skip prev m post,
  inside_match skip prev s ->
  s = pre +:+ m +:+ post ->
  word_before prev pre = false ->
  starts_with_word post = false ->
  forallb is_letter (chars m) = true ->
  (4 <= String.length m)%nat ->
  List.In m (findall_from skip prev s).
Proof.
  induction pre as [| c pre IH]; intros s skip prev m post Hin -> Hpre Hpost Hall Hlen.
  - cbn in Hpre. subst prev. destruct Hin as [-> | [Hp _]]; [| discriminate].
    destruct m as [| c m]; [cbn in Hlen; lia |].
    change (EmptyString +:+ String c m +:+ post) with (String c (m +:+ post)).
    cbn [findall_from].
    assert (Hm : match_here false (String c (m +:+ post)) = Some (String c m)).
    { unfold match_here.
      assert (Hc : is_word c = true).
      { unfold chars in Hall. cbn in Hall. apply andb_true_iff in Hall as [Hc _].
        now apply is_letter_word. }
      cbn [at_boundary]. rewrite Hc. cbn.
      apply (letters_then_boundary_complete (String c m) 0 false post Hall Hpost);
        [lia | discriminate]. }
    rewrite Hm. now left.
  - change (String c pre +:+ m +:+ post) with (String c (pre +:+ m +:+ post)).
    cbn [findall_from]. cbn [word_before] in Hpre.
    destruct skip as [| k].
    + destruct (match_here prev (String c (pre +:+ m +:+ post))) as [m0 |] eqn:Hm0.
      * right. apply (IH _ _ _ m post); auto.
        pose proof (match_here_spec _ _ _ Hm0) as (Hall0 & Hlen0 & post0 & Hs0).
        destruct m0 as [| c0 m0]; [cbn in Hlen0; lia |].
        cbn in Hs0. injection Hs0 as <- Hs0.
        unfold chars in Hall0. cbn in Hall0. apply andb_true_iff in Hall0 as [Hc Hm0'].
        right. split; [now apply is_letter_word |].
        exists m0, post0. cbn [String.length]. repeat split; auto. lia.
      * apply (IH _ _ _ m post); auto. now left.
    + destruct Hin as [Hz | (_ & a & b & Hs & Hlena & Halla)]; [discriminate |].
      destruct a as [| ca a]; [discriminate |].
      cbn in Hs. injection Hs as <- Hs.
      unfold chars in Halla. cbn in Halla. apply andb_true_iff in Halla as [Hc Ha].
      apply (IH _ _ _ m post); auto.
      cbn [String.length] in Hlena. injection Hlena as Hlena.
      destruct k as [| k']; [now left |].
      right. split; [now apply is_letter_word |].
      exists a, b. repeat split; auto.
Qed.

(** X1.  [re.findall] with the pattern of the tokenizer returns exactly the
    runs of four or more letters A-Z, a-z that stand between two places
    which are not word characters. *)
Theorem findall_delimited_runs text m :
  List.In m (findall text) <->
  forallb is_letter (chars m) = true
  /\ (4 <= String.length m)%nat
  /\ delimited_in m text.
Proof.
  split.
  - intros Hin. destruct (findall_spec _ _ Hin) as (Hall & Hlen & _).
    repeat split; auto. now apply findall_from_delimited in Hin.
  - intros (Hall & Hlen & pre & post & Htext & Hpre & Hpost).
    apply (findall_from_complete pre text 0 false m post); auto. now left.
Qed.

(** ** More on the keywords of a text *)

Lemma slice_to_all {A : Type} (l : list A) (n : Z) :
  Z.of_nat (length l) <= n -> slice_to l n = l.
Proof.
  intros Hn. unfold slice_to.
  destruct (Z.ltb_spec n 0) as [Hneg | _]; [lia |].
  apply List.firstn_all2. lia.
Qed.

Lemma candidates_complete text w :
  List.In w (words_of text) ->
  is_stopword w = false ->
  List.In w (candidates (Some text)).
Proof.
  intros Hw Hstop. destruct text as [| c s]; [destruct Hw |].
  cbn [candidates]. unfold ranked_items.
  apply (Permutation_in _ (Permutation_map fst (sorted_items_Permutation _))).
  now apply (count_words_spec (words_of (String c s))).
Qed.

(** X2.  When [top_n] is at least the number of distinct keywords of the
    text, nothing is cut: the result holds exactly the lower-case forms of
    the tokens that are not stop words. *)
Theorem extract_keywords_all text top_n w :
  Z.of_nat (length (candidates (Some text))) <= top_n ->
  List.In w (_extract_keywords (Some text) top_n) <->
  List.In w (words_of text) /\ w ∉ _STOPWORDS.
Proof.
  intros Hn. rewrite extract_keywords_candidates, (slice_to_all _ _ Hn).
  rewrite <- is_stopword_false. split.
  - intros Hin. apply candidates_In in Hin.
    destruct Hin as (source & [= <-] & Hw & Hstop). now split.
  - intros [Hw Hstop]. now apply candidates_complete.
Qed.

Lemma extract_keywords_all_witness :
  List.In "rust" (_extract_keywords (Some "Rust and Go") 5) <->
  List.In "rust" (words_of "Rust and Go") /\ "rust" ∉ _STOPWORDS.
Proof.
  apply (extract_keywords_all "Rust and Go" 5 "rust").
  apply Z.leb_le. vm_compute. reflexivity.
Defined.

(** X3.  A larger [top_n] only adds keywords at the end: the result for
    [n] is the first [n] keywords of the result for any [m >= n >= 0]. *)
Theorem extract_keywords_prefix text n m :
  0 <= n <= m ->
  _extract_keywords text n = firstn (Z.to_nat n) (_extract_keywords text m).
Proof.
  intros [Hn Hm]. rewrite !extract_keywords_candidates. unfold slice_to.
  destruct (Z.ltb_spec n 0) as [Hneg | _]; [lia |].
  destruct (Z.ltb_spec m 0) as [Hneg | _]; [lia |].
  rewrite List.firstn_firstn. f_equal. lia.
Qed.

Lemma extract_keywords_prefix_witness :
  _extract_keywords (Some "beta alpha beta gamma") 1 =
  firstn (Z.to_nat 1) (_extract_keywords (Some "beta alpha beta gamma") 3).
Proof. apply extract_keywords_prefix. lia. Defined.

(** X4.  The first keyword of a result occurs in the text at least as often
    as every other token that is not a stop word. *)
Theorem first_keyword_most_frequent text top_n k rest w :
  _extract_keywords (Some text) top_n = k :: rest ->
  List.In w (words_of text) ->
  w ∉ _STOPWORDS ->
  occurrences (words_of text) w <= occurrences (words_of text) k.
Proof.
  intros Hres Hw Hstop. apply is_stopword_false in Hstop.
  pose proof (candidates_complete _ _ Hw Hstop) as Hin.
  set (all := Z.of_nat (length (candidates (Some text)))).
  assert (Hall : _extract_keywords (Some text) all = candidates (Some text)).
  { rewrite extract_keywords_candidates. apply slice_to_all. subst all. lia. }
  assert (Hk : nth_error (candidates (Some text)) 0 = Some k).
  { rewrite extract_keywords_candidates in Hres.
    destruct (slice_to_firstn (candidates (Some text)) top_n) as [n Hn].
    rewrite Hn in Hres. apply (firstn_nth_error n).
    now rewrite Hres. }
  apply In_nth_error in Hin. destruct Hin as [j Hj].
  destruct j as [| j].
  - rewrite Hk in Hj. injection Hj as <-. lia.
  - rewrite <- Hall in Hk, Hj.
    destruct (extract_keywords_order text all 0 (S j) k w ltac:(lia) Hk Hj)
      as [Hlt | [Heq _]]; lia.
Qed.

Lemma first_keyword_most_frequent_witness :
  occurrences (words_of "beta alpha beta gamma") "gamma"
  <= occurrences (words_of "beta alpha beta gamma") "beta".
Proof.
  apply (first_keyword_most_frequent "beta alpha beta gamma" 2 "beta" ["alpha"] "gamma").
  - vm_compute. reflexivity.
  - vm_compute. right. right. right. left. reflexivity.
  - apply is_stopword_false. vm_compute. reflexivity.
Defined.

(** ** More on the suggestions *)

Lemma add_generic_prompts_firstn remaining : forall suggestions max_suggestions,
  add_generic_prompts remaining suggestions max_suggestions =
  suggestions
  ++ firstn (Z.to_nat (max_suggestions - Z.of_nat (length suggestions))) remaining.
Proof.
  induction remaining as [| g rest IH]; intros suggestions m;
    cbn [add_generic_prompts].
  - now rewrite List.firstn_nil, List.app_nil_r.
  - destruct (Z.ltb_spec (Z.of_nat (length suggestions)) m) as [Hlt | Hge].
    + rewrite IH, List.length_app, <- List.app_assoc. cbn [length app].
      replace (Z.to_nat (m - Z.of_nat (length suggestions)))
        with (S (Z.to_nat (m - Z.of_nat (length suggestions + 1)))) by lia.
      reflexivity.
    + replace (Z.to_nat (m - Z.of_nat (length suggestions))) with 0%nat by lia.
      now rewrite List.app_nil_r.
Qed.

Lemma used_keywords_slice user_message response_text max_suggestions :
  0 <= max_suggestions ->
  match _extract_keywords user_message max_suggestions with
  | [] => _extract_keywords response_text max_suggestions
  | _ :: _ => _extract_keywords user_message max_suggestions
  end = slice_to (used_candidates user_message response_text) max_suggestions.
Proof.
  intros Hm. unfold used_candidates. rewrite !extract_keywords_candidates.
  destruct (candidates user_message) as [| c cs] eqn:Hc.
  - now rewrite slice_to_nil.
  - destruct (slice_to (c :: cs) max_suggestions) as [| k ks] eqn:Hs; [| reflexivity].
    pose proof (slice_to_length (c :: cs) _ Hm) as Hlen.
    rewrite Hs in Hlen. cbn [length] in Hlen.
    assert (max_suggestions = 0) as -> by lia.
    reflexivity.
Qed.

Lemma generate_suggestions_parts user_message response_text owner max_suggestions :
  0 <= max_suggestions ->
  generate_suggestions user_message response_text owner max_suggestions =
  map template (slice_to (used_candidates user_message response_text) max_suggestions)
  ++ firstn
       (Z.to_nat
          (max_suggestions
           - Z.of_nat
               (length (slice_to (used_candidates user_message response_text)
                          max_suggestions))))
       generic.
Proof.
  intros Hm. rewrite generate_suggestions_unfold, used_keywords_slice by exact Hm.
  set (kws := slice_to (used_candidates user_message response_text) max_suggestions).
  assert (Hfit : Z.of_nat (length kws) <= max_suggestions).
  { subst kws. rewrite slice_to_length by exact Hm. lia. }
  rewrite add_keyword_prompts_fit by (cbn [length]; lia).
  cbn [app]. rewrite add_generic_prompts_firstn, List.length_map. reflexivity.
Qed.

(** X5.  For a quota that is not negative the result is the prompts of the
    best keywords of the text in use, in rank order, followed by generic
    prompts in the order of their list, as many as the quota leaves room
    for. *)
Theorem generate_suggestions_shape user_message response_text owner max_suggestions :
  0 <= max_suggestions ->
  let kws := slice_to (used_candidates user_message response_text) max_suggestions in
  generate_suggestions user_message response_text owner max_suggestions =
  map template kws
  ++ firstn (Z.to_nat (max_suggestions - Z.of_nat (length kws))) generic.
Proof. intros Hm kws. now apply generate_suggestions_parts. Qed.

Lemma generate_suggestions_shape_witness :
  generate_suggestions (Some "Tell me about Rust") None None 2 =
  map template (slice_to (used_candidates (Some "Tell me about Rust") None) 2)
  ++ firstn
       (Z.to_nat
          (2 - Z.of_nat
                 (length (slice_to (used_candidates (Some "Tell me about Rust") None) 2))))
       generic.
Proof. apply generate_suggestions_shape. lia. Defined.

Lemma string_length_append (x y : string) :
  String.length (x +:+ y) = (String.length x + String.length y)%nat.
Proof.
  induction x as [| c x IH]; [reflexivity |].
  change (String c x +:+ y) with (String c (x +:+ y)).
  cbn [String.length]. now rewrite IH.
Qed.

Lemma append_suffix_injective (a b suffix : string) :
  a +:+ suffix = b +:+ suffix -> a = b.
Proof.
  revert b. induction a as [| c a IH]; intros [| d b] H.
  - reflexivity.
  - apply (f_equal String.length) in H. rewrite !string_length_append in H.
    cbn [String.length] in H. lia.
  - apply (f_equal String.length) in H. rewrite !string_length_append in H.
    cbn [String.length] in H. lia.
  - change (String c (a +:+ suffix) = String d (b +:+ suffix)) in H.
    injection H as -> H. f_equal. now apply IH.
Qed.

Lemma template_injective k1 k2 : template k1 = template k2 -> k1 = k2.
Proof.
  unfold template. cbn. intros H. injection H as H.
  change (k1 +:+ "?" = k2 +:+ "?") in H.
  now apply append_suffix_injective in H.
Qed.

Lemma NoDup_map_injective {A B : Type} (f : A -> B) (l : list A) :
  (forall x y, f x = f y -> x = y) -> List.NoDup l -> List.NoDup (map f l).
Proof.
  intros Hinj. induction 1 as [| x l Hx _ IH]; cbn; constructor; [| exact IH].
  rewrite in_map_iff. intros (y & Hy & Hin). apply Hinj in Hy. now subst y.
Qed.

Lemma template_not_generic k : ~ List.In (template k) generic.
Proof.
  unfold template, generic. cbn.
  intros [H | [H | [H | []]]]; discriminate H.
Qed.

(** X6.  For a quota that is not negative no question is suggested twice. *)
Theorem generate_suggestions_NoDup user_message response_text owner max_suggestions :
  0 <= max_suggestions ->
  List.NoDup (generate_suggestions user_message response_text owner max_suggestions).
Proof.
  intros Hm. rewrite generate_suggestions_parts by exact Hm.
  destruct (slice_to_firstn (used_candidates user_message response_text)
              max_suggestions) as [n ->].
  apply List.NoDup_app.
  - apply NoDup_map_injective; [exact template_injective |].
    apply firstn_NoDup. unfold used_candidates.
    destruct (candidates user_message) eqn:Hc;
      [| rewrite <- Hc]; apply candidates_NoDup.
  - apply firstn_NoDup. unfold generic.
    repeat (constructor; [cbn; intuition discriminate |]). constructor.
  - intros s Hs Hg. apply in_map_iff in Hs. destruct Hs as (k & <- & _).
    apply firstn_incl in Hg. exact (template_not_generic k Hg).
Qed.

Lemma generate_suggestions_NoDup_witness :
  List.NoDup (generate_suggestions (Some "Rust rust Go go") None None 3).
Proof. apply generate_suggestions_NoDup. lia. Defined.

(** X7.  For a negative quota no generic prompt is added and the loop over
    the keywords stops after its first turn: the result is empty or the
    prompt of one candidate keyword of one of the two texts. *)
Theorem generate_suggestions_negative user_message response_text owner max_suggestions :
  max_suggestions < 0 ->
  generate_suggestions user_message response_text owner max_suggestions = []
  \/ exists k,
       generate_suggestions user_message response_text owner max_suggestions
         = [template k]
       /\ (List.In k (candidates user_message) \/ List.In k (candidates response_text)).
Proof.
  intros Hm. rewrite generate_suggestions_unfold.
  set (kws := match _extract_keywords user_message max_suggestions with
              | [] => _ | _ :: _ => _ end).
  assert (Hsub : forall k, List.In k kws ->
            List.In k (candidates user_message) \/ List.In k (candidates response_text)).
  { intros k. subst kws. rewrite !extract_keywords_candidates.
    destruct (slice_to_firstn (candidates user_message) max_suggestions) as [n ->].
    destruct (slice_to_firstn (candidates response_text) max_suggestions) as [n' ->].
    destruct (firstn n (candidates user_message)) eqn:Hu.
    - intros Hin. right. now apply firstn_incl in Hin.
    - rewrite <- Hu. intros Hin. left. now apply firstn_incl in Hin. }
  rewrite add_generic_prompts_firstn.
  replace (Z.to_nat (max_suggestions
                     - Z.of_nat (length (add_keyword_prompts kws [] max_suggestions))))
    with 0%nat by lia.
  cbn [firstn]. rewrite List.app_nil_r.
  destruct kws as [| k ks]; cbn [add_keyword_prompts]; [now left |].
  right. exists k. split; [| apply Hsub; now left].
  destruct (Z.of_nat (length ([] ++ [template k])) >=? max_suggestions) eqn:Hge;
    [reflexivity |].
  rewrite Z.geb_leb in Hge. apply Z.leb_gt in Hge. cbn [app length] in Hge. lia.
Qed.

Lemma generate_suggestions_negative_witness :
  generate_suggestions (Some "alpha beta gamma") None None (-1) = []
  \/ exists k,
       generate_suggestions (Some "alpha beta gamma") None None (-1) = [template k]
       /\ (List.In k (candidates (Some "alpha beta gamma"))
           \/ List.In k (candidates None)).
Proof. apply generate_suggestions_negative. lia. Defined.

(** ** More on the tools *)

Section ToolFacts.

Context `{R : Remote}.

Local Open Scope chat_scope.

Lemma push_Err message title w e w' :
  push message title w = (Err e, w') ->
  exn_class e <> RequestException
  /\ exists url data, requests_post url data w = (Err e, w').
Proof.
  unfold push. destruct (truthy PUSHOVER_TOKEN && truthy PUSHOVER_USER); [| discriminate].
  destruct (requests_post _ _ w) as [[[] | e0] w0] eqn:Hpost; [discriminate |].
  destruct (exn_class e0) eqn:Hclass; try discriminate;
    intros [= <- <-]; (split; [congruence | eauto]).
Qed.

Lemma push_Ok message title w :
  push_harmless -> exists w', push message title w = (Ok tt, w').
Proof.
  intros Hharmless.
  destruct (push message title w) as [[[] | e] w'] eqn:Hpush; [eauto |].
  exfalso. destruct Hharmless as [Hoff | Honly].
  - unfold push in Hpush. rewrite Hoff in Hpush. discriminate.
  - apply push_Err in Hpush. destruct Hpush as (Hclass & url & data & Hpost).
    apply Honly in Hpost. contradiction.
Qed.

(** X8.  [push] never lets a [RequestException] out, and what it raises was
    raised by [requests.post]; without one of the two credentials it sends
    nothing and leaves the world as it is. *)
Theorem push_swallows_request_errors message title w :
  (forall e w',
     push message title w = (Err e, w') ->
     exn_class e <> RequestException
     /\ exists url data, requests_post url data w = (Err e, w'))
  /\ (truthy PUSHOVER_TOKEN && truthy PUSHOVER_USER = false ->
      push message title w = (Ok tt, w)).
Proof.
  split; [intros e w'; apply push_Err |].
  intros Hoff. unfold push. now rewrite Hoff.
Qed.

(** X9.  A call of [record_user_details] with an [email] and no keyword
    outside its signature succeeds whenever the push service cannot make
    [push] raise; the name in the confirmation is the one given, or the
    default. *)
Theorem record_user_details_succeeds args w email :
  unexpected_keyword ["email"; "name"; "notes"] args = None ->
  args_get args "email" = Some email ->
  push_harmless ->
  exists w',
    record_user_details args w =
    (Ok {| status := "success";
           message := "Details for "
                      +:+ default "Name not provided" (args_get args "name")
                      +:+ " recorded." |}, w').
Proof.
  intros Hkeys Hemail Hharmless. unfold record_user_details.
  rewrite Hkeys, Hemail. cbv zeta.
  match goal with
  | |- context [push ?m ?t w] => destruct (push_Ok m t w Hharmless) as [w' ->]
  end.
  eauto.
Qed.

(** X10.  A call of [record_unknown_question] with a [question] and no other
    keyword succeeds whenever the push service cannot make [push] raise. *)
Theorem record_unknown_question_succeeds args w question :
  unexpected_keyword ["question"] args = None ->
  args_get args "question" = Some question ->
  push_harmless ->
  exists w',
    record_unknown_question args w =
    (Ok {| status := "success";
           message := "Question has been recorded for review." |}, w').
Proof.
  intros Hkeys Hquestion Hharmless. unfold record_unknown_question.
  rewrite Hkeys, Hquestion. cbv zeta.
  match goal with
  | |- context [push ?m ?t w] => destruct (push_Ok m t w Hharmless) as [w' ->]
  end.
  eauto.
Qed.

(** X11.  A call whose keywords do not fit the signature of its tool raises
    a [TypeError] before anything is sent: the world is left as it is. *)
Theorem misfit_call_raises_before_push args w :
  (unexpected_keyword ["email"; "name"; "notes"] args <> None
   \/ args_get args "email" = None ->
   exists e,
     record_user_details args w = (Err e, w) /\ exn_class e = TypeError)
  /\ (unexpected_keyword ["question"] args <> None
      \/ args_get args "question" = None ->
      exists e,
        record_unknown_question args w = (Err e, w) /\ exn_class e = TypeError).
Proof.
  split; intros Hmisfit.
  - unfold record_user_details.
    destruct (unexpected_keyword ["email"; "name"; "notes"] args) as [k |];
      [eauto |].
    destruct (args_get args "email"); [| eauto].
    destruct Hmisfit; congruence.
  - unfold record_unknown_question.
    destruct (unexpected_keyword ["question"] args) as [k |]; [eauto |].
    destruct (args_get args "question"); [| eauto].
    destruct Hmisfit; congruence.
Qed.

End ToolFacts.

Lemma push_swallows_request_errors_witness :
  @push scripted "Question: Do you play chess?" "Unanswered Question Logged" []
  = (Ok tt, []).
Proof.
  apply (proj2 (@push_swallows_request_errors scripted _ _ [])). reflexivity.
Defined.

Lemma record_user_details_succeeds_witness :
  exists w',
    @record_user_details scripted [("email", "ann@example.org")] [] =
    (Ok {| status := "success";
           message := "Details for "
                      +:+ default "Name not provided"
                            (args_get [("email", "ann@example.org")] "name")
                      +:+ " recorded." |}, w').
Proof.
  apply (@record_user_details_succeeds scripted _ [] "ann@example.org").
  - reflexivity.
  - reflexivity.
  - left. reflexivity.
Defined.

Lemma record_unknown_question_succeeds_witness :
  exists w',
    @record_unknown_question scripted [("question", "Do you play chess?")] [] =
    (Ok {| status := "success";
           message := "Question has been recorded for review." |}, w').
Proof.
  apply (@record_unknown_question_succeeds scripted _ [] "Do you play chess?").
  - reflexivity.
  - reflexivity.
  - left. reflexivity.
Defined.

Lemma misfit_call_raises_before_push_witness :
  (exists e,
     @record_user_details scripted [("name", "Ann"); ("phone", "555")] [] = (Err e, [])
     /\ exn_class e = TypeError)
  /\ (exists e,
        @record_unknown_question scripted [] [] = (Err e, [])
        /\ exn_class e = TypeError).
Proof.
  destruct (@misfit_call_raises_before_push scripted
              [("name", "Ann"); ("phone", "555")] []) as [Hdetails _].
  destruct (@misfit_call_raises_before_push scripted [] []) as [_ Hquestion].
  split.
  - apply Hdetails. left. vm_compute. discriminate.
  - apply Hquestion. right. reflexivity.
Defined.

(** ** More on the turn *)

Section TurnFacts.

Context `{R : Remote}.

Local Open Scope chat_scope.


(** The events a loop adds are tool executions and follow-up messages. *)
Lemma while_events fuel self : forall response st out st',
  while_function_calls fuel self response st = (out, st') ->
  exists events,
    log st' = log st ++ events
    /\ List.forallb (fun ev => negb (is_user_send ev)) events = true.
Proof.
  assert (Hexec : forall calls,
    List.forallb (fun ev => negb (is_user_send ev)) (executions self calls) = true).
  { intros calls. unfold executions.
    induction calls as [| fc rest IH]; cbn [flat_map]; [reflexivity |].
    rewrite List.forallb_app, IH.
    destruct (tools self !! fc_name fc); reflexivity. }
  induction fuel as [| fuel IH]; intros response st out st' Hrun;
    destruct (has_function_call response) eqn:Hcall;
    try (rewrite (while_no_calls _ _ _ _ Hcall) in Hrun;
         injection Hrun as <- <-; exists []; now rewrite List.app_nil_r).
  - cbn [while_function_calls] in Hrun. rewrite Hcall in Hrun.
    injection Hrun as <- <-. exists []. now rewrite List.app_nil_r.
  - destruct (for_function_calls_returns self (function_calls_of response) [] st)
      as (answers & st1 & Hfor & _ & Hlog).
    cbn [app] in Hfor.
    destruct (send_message (FunctionResponses answers) (world st1)) as [[r' | e] w2] eqn:Hs.
    + rewrite (while_round_Ok _ _ _ _ _ _ _ _ Hcall Hfor Hs) in Hrun.
      apply IH in Hrun. cbn [log] in Hrun. destruct Hrun as (events & -> & Hev).
      exists (executions self (function_calls_of response)
              ++ [Sent (FunctionResponses answers)] ++ events).
      split; [rewrite Hlog, <- !List.app_assoc; reflexivity |].
      now rewrite !List.forallb_app, Hexec, Hev.
    + rewrite (while_round_Err _ _ _ _ _ _ _ _ Hcall Hfor Hs) in Hrun.
      injection Hrun as <- <-. cbn [log].
      exists (executions self (function_calls_of response)
              ++ [Sent (FunctionResponses answers)]).
      split; [rewrite Hlog, <- !List.app_assoc; reflexivity |].
      now rewrite !List.forallb_app, Hexec.
Qed.



(** X15.  In a turn with a started session the text of the user is the
    first thing sent and it is sent once. *)
Theorem user_message_sent_once fuel self m user_message chat_history w0 w1 l0 out st' :
  model self = Some m ->
  start_chat m chat_history w0 = (Ok tt, w1) ->
  chat fuel self user_message chat_history {| world := w0; log := l0 |} = (out, st') ->
  exists events,
    log st' = l0 ++ Sent (Text user_message) :: events
    /\ List.filter is_user_send events = [].
Proof.
  intros Hm Hstart. rewrite (chat_started _ _ _ _ _ _ _ _ Hm Hstart).
  assert (Hnone : forall events,
    List.forallb (fun ev => negb (is_user_send ev)) events = true ->
    List.filter is_user_send events = []).
  { induction events as [| ev events IH]; cbn; [reflexivity |].
    destruct (is_user_send ev); cbn; [discriminate | exact IH]. }
  assert (Htry : forall o st1,
    chat_try fuel self user_message {| world := w1; log := l0 |} = (o, st1) ->
    exists events,
      log st1 = l0 ++ Sent (Text user_message) :: events
      /\ List.forallb (fun ev => negb (is_user_send ev)) events = true).
  { intros o st1. unfold chat_try. unfold bind at 1.
    unfold chat_session_send_message, bind, emit, call. cbn [world log].
    destruct (send_message (Text user_message) w1) as [[r0 | e0] w2].
    - destruct (while_function_calls fuel self r0 _) as [[r | e1 |] st2] eqn:Hloop;
        apply while_events in Hloop; cbn [log] in Hloop;
        destruct Hloop as (events & Hlog & Hev).
      + unfold access. intros [= _ <-]. exists events.
        rewrite Hlog, <- List.app_assoc. now split.
      + intros [= _ <-]. exists events. rewrite Hlog, <- List.app_assoc. now split.
      + intros [= _ <-]. exists events. rewrite Hlog, <- List.app_assoc. now split.
    - intros [= _ <-]. exists []. cbn [log]. now split. }
  unfold try_except.
  destruct (chat_try fuel self user_message _) as [o st1].
  destruct (Htry _ _ eq_refl) as (events & Hlog & Hev).
  destruct o as [a | e |].
  - intros [= _ <-]. exists events. split; [exact Hlog | now apply Hnone].
  - rewrite apologize. intros [= _ <-]. cbn [log].
    exists (events ++ [StError (error_notice e)]). split.
    + rewrite Hlog, <- List.app_assoc. reflexivity.
    + apply Hnone. now rewrite List.forallb_app, Hev.
  - intros [= _ <-]. exists events. split; [exact Hlog | now apply Hnone].
Qed.

End TurnFacts.


Lemma user_message_sent_once_witness :
  exists events,
    [Sent (Text "Hello")] = [] ++ Sent (Text "Hello") :: events
    /\ List.filter is_user_send events = [].
Proof.
  apply (@user_message_sent_once scripted 1%nat sample_me sample_model "Hello" []
           [Ok (text_response "Hi")] [Ok (text_response "Hi")] []
           (Return "Hi") (scripted_state [] [Sent (Text "Hello")]));
    reflexivity.
Defined.

(** ** Start-up and the page *)

Lemma string_append_assoc (a b c : string) : (a +:+ b) +:+ c = a +:+ b +:+ c.
Proof.
  induction a as [| x a IH]; [reflexivity |].
  change (String x ((a +:+ b) +:+ c) = String x (a +:+ b +:+ c)). now rewrite IH.
Qed.

Lemma occurs_in_here (t post : string) : occurs_in t (t +:+ post).
Proof. now exists "", post. Qed.

Lemma occurs_in_append_l (t a s : string) : occurs_in t s -> occurs_in t (a +:+ s).
Proof.
  intros (pre & post & ->). exists (a +:+ pre), post.
  now rewrite string_append_assoc.
Qed.

Lemma string_append_nil_r (t : string) : t +:+ "" = t.
Proof.
  induction t as [| c t IH]; [reflexivity |].
  change (String c (t +:+ "") = String c t). now rewrite IH.
Qed.

Lemma occurs_in_refl (t : string) : occurs_in t t.
Proof.
  exists "", "". change (t = t +:+ ""). now rewrite string_append_nil_r.
Qed.

Lemma occurs_in_join sep texts t :
  List.In t texts -> occurs_in t (join sep texts).
Proof.
  induction texts as [| x rest IH]; [intros [] |].
  intros [-> | Hin]; cbn [join].
  - destruct rest; [apply occurs_in_refl | apply occurs_in_here].
  - destruct rest as [| y rest]; [destruct Hin |].
    apply occurs_in_append_l, occurs_in_append_l, IH, Hin.
Qed.

Lemma extract_pages_In pages : forall texts t,
  extract_pages pages = Content texts ->
  List.In (Content (Some t)) pages ->
  List.In t texts.
Proof.
  induction pages as [| p pages IH]; intros texts t Hx Hin; [destruct Hin |].
  cbn [extract_pages] in Hx.
  destruct p as [o | |]; try discriminate.
  destruct (extract_pages pages) as [ts | |]; try discriminate.
  injection Hx as <-. destruct Hin as [[= ->] | Hin].
  - now left.
  - right. now apply IH.
Qed.

(** X16.  [safe_get_secret] finds nothing exactly when the key is in neither
    the secrets nor the environment and there is no default; a value in the
    secrets is preferred to the environment, and the environment to the
    default. *)
Theorem safe_get_secret_precedence secrets environ key default :
  (safe_get_secret secrets environ key default = None <->
   (forall table, secrets = Some table -> table !! key = None)
   /\ environ !! key = None
   /\ default = None)
  /\ (forall table v,
        secrets = Some table -> table !! key = Some v ->
        safe_get_secret secrets environ key default = Some v)
  /\ (forall v,
        (forall table, secrets = Some table -> table !! key = None) ->
        environ !! key = Some v ->
        safe_get_secret secrets environ key default = Some v).
Proof.
  unfold safe_get_secret, os_getenv. split; [| split].
  - destruct secrets as [table |].
    + destruct (table !! key) as [v |] eqn:Ht.
      * split; [discriminate |]. intros (Hs & _). specialize (Hs table eq_refl).
        congruence.
      * destruct (environ !! key); split; try discriminate.
        -- intros (_ & He & _). discriminate.
        -- intros ->. repeat split. intros t [= <-]. exact Ht.
        -- now intros (_ & _ & ->).
    + destruct (environ !! key); split; try discriminate.
      * intros (_ & He & _). discriminate.
      * intros ->. repeat split. discriminate.
      * now intros (_ & _ & ->).
  - intros table v -> Hv. now rewrite Hv.
  - intros v Hs He. destruct secrets as [table |].
    + now rewrite (Hs table eq_refl), He.
    + now rewrite He.
Qed.

Lemma safe_get_secret_precedence_witness :
  safe_get_secret (Some {[ "PUSHOVER_USER" := "u1" ]}) {[ "PUSHOVER_USER" := "u2" ]}
    "PUSHOVER_USER" None = Some "u1".
Proof.
  apply (proj1 (proj2 (safe_get_secret_precedence
                         (Some {[ "PUSHOVER_USER" := "u1" ]})
                         {[ "PUSHOVER_USER" := "u2" ]} "PUSHOVER_USER" None))
           {[ "PUSHOVER_USER" := "u1" ]} "u1"); reflexivity.
Defined.

Section StartUpFacts.

Context `{R : Remote}.

Variable PdfReader : string -> file_result (list (file_result (option string))).
Variable read_text : string -> file_result string.


(** X18.  With the library and a key, start-up gives a model whose system
    instruction carries what the three documents were read as, and a
    registry with the two tools and nothing else; at most one notice is
    shown per document. *)
Theorem configured_start_up gemini_key :
  truthy gemini_key = true ->
  exists prompt,
    model (fst (Me_init PdfReader read_text true gemini_key)) =
      Some {| model_name := "gemini-1.5-flash-latest"; system_instruction := prompt |}
    /\ occurs_in (fst (_read_file read_text "me/summary.txt")) prompt
    /\ occurs_in (fst (_read_pdf PdfReader "me/linkedin.pdf")) prompt
    /\ occurs_in (fst (_read_pdf PdfReader "me/cv.pdf")) prompt
    /\ (forall function_name,
          tools (fst (Me_init PdfReader read_text true gemini_key)) !! function_name = None
          <-> function_name <> "record_user_details"
              /\ function_name <> "record_unknown_question")
    /\ (length (snd (Me_init PdfReader read_text true gemini_key)) <= 3)%nat.
Proof.
  intros Hkey. unfold Me_init. rewrite Hkey. cbn [negb orb].
  destruct (_read_pdf PdfReader "me/linkedin.pdf") as [linkedin shown1] eqn:H1.
  destruct (_read_pdf PdfReader "me/cv.pdf") as [cv shown2] eqn:H2.
  destruct (_read_file read_text "me/summary.txt") as [summary shown3] eqn:H3.
  cbn [fst snd model tools].
  exists (_get_system_prompt summary linkedin cv).
  split; [reflexivity |]. unfold _get_system_prompt.
  split; [do 8 apply occurs_in_append_l; apply occurs_in_here |].
  split; [do 13 apply occurs_in_append_l; apply occurs_in_here |].
  split; [do 18 apply occurs_in_append_l; apply occurs_in_here |].
  split.
  - intros function_name. unfold registered_tools.
    rewrite lookup_insert_None, lookup_singleton_None. split.
    + intros [H1' H2']. split; congruence.
    + intros [H1' H2']. split; congruence.
  - assert (Hpdf : forall path, (length (snd (_read_pdf PdfReader path)) <= 1)%nat).
    { intros path. unfold _read_pdf.
      destruct (PdfReader path) as [pages | |]; cbn; try lia.
      destruct (extract_pages pages); cbn; lia. }
    pose proof (Hpdf "me/linkedin.pdf") as Hl. pose proof (Hpdf "me/cv.pdf") as Hc.
    rewrite H1 in Hl. rewrite H2 in Hc. cbn [snd] in Hl, Hc.
    assert (Hs : (length shown3 <= 1)%nat).
    { unfold _read_file in H3. destruct (read_text "me/summary.txt");
        injection H3 as _ <-; cbn; lia. }
    rewrite !List.length_app. lia.
Qed.

(** X19.  [_read_pdf] shows nothing exactly when the file and all its pages
    could be read, and then the text of every page is in what it returns;
    otherwise it returns one of the two placeholders. *)
Theorem read_pdf_pages path :
  (snd (_read_pdf PdfReader path) = [] <->
   exists pages texts,
     PdfReader path = Content pages /\ extract_pages pages = Content texts)
  /\ (forall pages texts t,
        PdfReader path = Content pages ->
        extract_pages pages = Content texts ->
        List.In (Content (Some t)) pages ->
        occurs_in t (fst (_read_pdf PdfReader path)))
  /\ (snd (_read_pdf PdfReader path) <> [] ->
      fst (_read_pdf PdfReader path) = "Not available."
      \/ fst (_read_pdf PdfReader path) = "Error reading file.").
Proof.
  unfold _read_pdf. split; [| split].
  - destruct (PdfReader path) as [pages | |].
    + destruct (extract_pages pages) as [texts | |] eqn:Hx; cbn [snd].
      * split; [eauto | reflexivity].
      * split; [discriminate | intros (p & t & [= <-] & Ht); congruence].
      * split; [discriminate | intros (p & t & [= <-] & Ht); congruence].
    + cbn [snd]. split; [discriminate | intros (p & t & Hp & _); discriminate].
    + cbn [snd]. split; [discriminate | intros (p & t & Hp & _); discriminate].
  - intros pages texts t -> Hx Hin. rewrite Hx. cbn [fst].
    apply occurs_in_join. eapply extract_pages_In; eassumption.
  - destruct (PdfReader path) as [pages | |].
    + destruct (extract_pages pages); cbn [fst snd]; auto. congruence.
    + cbn [fst snd]. auto.
    + cbn [fst snd]. auto.
Qed.

End StartUpFacts.


Lemma configured_start_up_witness :
  exists prompt,
    model (fst (@Me_init scripted sample_PdfReader sample_read_text true (Some "key"))) =
      Some {| model_name := "gemini-1.5-flash-latest"; system_instruction := prompt |}
    /\ occurs_in (fst (_read_file sample_read_text "me/summary.txt")) prompt
    /\ occurs_in (fst (_read_pdf sample_PdfReader "me/linkedin.pdf")) prompt
    /\ occurs_in (fst (_read_pdf sample_PdfReader "me/cv.pdf")) prompt
    /\ (forall function_name,
          tools (fst (@Me_init scripted sample_PdfReader sample_read_text true (Some "key")))
            !! function_name = None
          <-> function_name <> "record_user_details"
              /\ function_name <> "record_unknown_question")
    /\ (length (snd (@Me_init scripted sample_PdfReader sample_read_text true (Some "key")))
        <= 3)%nat.
Proof.
  apply (@configured_start_up scripted sample_PdfReader sample_read_text (Some "key")).
  reflexivity.
Defined.

Lemma read_pdf_pages_witness :
  occurs_in "Rust and Go." (fst (_read_pdf sample_PdfReader "me/cv.pdf"))
  /\ (fst (_read_pdf sample_PdfReader "me/linkedin.pdf") = "Not available."
      \/ fst (_read_pdf sample_PdfReader "me/linkedin.pdf") = "Error reading file.").
Proof.
  split.
  - apply (proj1 (proj2 (read_pdf_pages sample_PdfReader "me/cv.pdf"))
             [Content (Some "Engineer since 2015."); Content None;
              Content (Some "Rust and Go.")]
             ["Engineer since 2015."; ""; "Rust and Go."] "Rust and Go.").
    + reflexivity.
    + reflexivity.
    + right. right. left. reflexivity.
  - apply (proj2 (proj2 (read_pdf_pages sample_PdfReader "me/linkedin.pdf"))).
    vm_compute. discriminate.
Defined.

(** ** The page *)

Lemma display_messages_app h1 : forall h2 shown1 shown2,
  display_messages h1 = Some shown1 ->
  display_messages h2 = Some shown2 ->
  display_messages (h1 ++ h2) = Some (shown1 ++ shown2).
Proof.
  induction h1 as [| msg h1 IH]; intros h2 shown1 shown2 H1 H2.
  - cbn in H1. injection H1 as <-. exact H2.
  - cbn [app display_messages] in *.
    destruct (existsb (String.eqb (role msg)) ["user"; "model"]).
    + destruct (turn_parts msg) as [| text0 parts0]; [discriminate |].
      destruct (display_messages h1) as [shown |] eqn:Hh1; [| discriminate].
      injection H1 as <-. now rewrite (IH h2 shown shown2 eq_refl H2).
    + now apply IH.
Qed.

Lemma exchanges_displayed chat_history :
  exchanges chat_history ->
  display_messages chat_history = Some (map shown_as chat_history).
Proof.
  induction 1 as [| h user_input response_text _ IH]; [reflexivity |].
  rewrite List.map_app. now apply display_messages_app.
Qed.

Section PageFacts.

Context `{R : Remote}.

(** X20.  Starting from a history of exchanges, an input of the user that
    [chat] answers leaves a history of exchanges, two messages longer, that
    ends with the input and the answer; every message of it is shown, the
    replies of the model as "assistant", and no message is without text.  A
    turn in which [chat] does not return leaves the input at the end of the
    history without a reply. *)
Theorem on_user_input_exchanges fuel me user_input chat_history st :
  user_input <> EmptyString ->
  exchanges chat_history ->
  (forall response_text st',
     chat fuel me user_input (chat_history ++ [user_turn user_input]) st
       = (Return response_text, st') ->
     let after := chat_history ++ [user_turn user_input; model_turn response_text] in
     on_user_input fuel me (Some user_input) chat_history st = (after, st')
     /\ exchanges after
     /\ display_messages after =
        Some (map shown_as chat_history
              ++ [("user", user_input); ("assistant", response_text)]))
  /\ (forall out st',
        chat fuel me user_input (chat_history ++ [user_turn user_input]) st = (out, st') ->
        (forall response_text, out <> Return response_text) ->
        on_user_input fuel me (Some user_input) chat_history st =
        (chat_history ++ [user_turn user_input], st')).
Proof.
  intros Hinput Hex. split.
  - intros response_text st' Hchat after.
    split; [| split].
    + unfold on_user_input. destruct user_input as [| c u]; [congruence |].
      cbv zeta. rewrite Hchat. subst after. now rewrite <- List.app_assoc.
    + now constructor.
    + rewrite (exchanges_displayed after) by now constructor.
      subst after. now rewrite List.map_app.
  - intros out st' Hchat Hout. unfold on_user_input.
    destruct user_input as [| c u]; [congruence |].
    cbv zeta. rewrite Hchat. destruct out as [s | e |]; [| reflexivity | reflexivity].
    now specialize (Hout s).
Qed.

End PageFacts.

Lemma on_user_input_exchanges_witness :
  on_user_input 1 sample_me (Some "Hello") []
    (scripted_state [Ok (text_response "Hi")] [])
  = ([] ++ [user_turn "Hello"; model_turn "Hi"],
     scripted_state [] [Sent (Text "Hello")])
  /\ exchanges ([] ++ [user_turn "Hello"; model_turn "Hi"])
  /\ display_messages ([] ++ [user_turn "Hello"; model_turn "Hi"]) =
     Some (map shown_as [] ++ [("user", "Hello"); ("assistant", "Hi")]).
Proof.
  apply (proj1 (@on_user_input_exchanges scripted 1%nat sample_me "Hello" []
                  (scripted_state [Ok (text_response "Hi")] [])
                  ltac:(discriminate) exchanges_nil)
           "Hi" (scripted_state [] [Sent (Text "Hello")])).
  reflexivity.
Defined.


(** ** Letter case *)










(** ** The JSON text of a tool result *)

Lemma chars_append (a b : string) : chars (a +:+ b) = chars a ++ chars b.
Proof.
  unfold chars. induction a as [| c a IH]; [reflexivity |].
  change (String c a +:+ b) with (String c (a +:+ b)). cbn. now rewrite IH.
Qed.

Lemma json_escape_char_printable c :
  forallb (in_range 32 126) (chars (json_escape_char c)) = true.
Proof. destruct c as [[] [] [] [] [] [] [] []]; vm_compute; reflexivity. Qed.

Lemma json_escape_printable s :
  forallb (in_range 32 126) (chars (json_escape s)) = true.
Proof.
  induction s as [| c s IH]; [reflexivity |].
  cbn [json_escape]. now rewrite chars_append, List.forallb_app,
    json_escape_char_printable, IH.
Qed.

Lemma json_string_printable s :
  forallb (in_range 32 126) (chars (json_string s)) = true.
Proof.
  unfold json_string. now rewrite !chars_append, !List.forallb_app, json_escape_printable.
Qed.

(** X22.  The JSON text made of a tool result holds printable ASCII
    characters only, whatever the characters of the result. *)
Theorem json_dumps_printable d :
  forallb (in_range 32 126) (chars (json_dumps d)) = true.
Proof.
  unfold json_dumps.
  now rewrite !chars_append, !List.forallb_app, !json_string_printable.
Qed.






